(** * The dialog bridge of [browser/api/atom_api_dialog.cc]

    A shallow embedding of the three entry points [ShowMessageBox],
    [ShowOpenDialog] and [ShowSaveDialog], of the conversions of
    [FromV8Value] and [ToV8Value], and of the completion handlers
    [CallV8Function] and [CallV8Function2].

    The scripting engine, the persistent-handle store and the native dialog
    layer are the environment of that file.  They are modelled here by what
    the file observes of them: the shape tests on a value, its conversion to
    text and to an integer, the allocation and disposal of persistent
    handles, and the results the native primitives hand back. *)

From Stdlib Require Import ZArith Lia String Ascii DecimalString.
From stdpp Require Import base option list gmap.

Local Open Scope Z_scope.

(** ** Text: 16-bit code units on the scripting side, bytes on the native side *)

Module Utf8.

(** A scripting string is a sequence of 16-bit code units; a [std::string]
    a sequence of bytes.  Both are kept as [Z] with the range spelled out
    where it matters. *)
Definition ustring := list Z.
Definition std_string := list Z.

Definition is_unit (u : Z) : bool := (0 <=? u) && (u <? 0x10000).
Definition is_lead (u : Z) : bool := (0xD800 <=? u) && (u <? 0xDC00).
Definition is_trail (u : Z) : bool := (0xDC00 <=? u) && (u <? 0xE000).
Definition is_cont (b : Z) : bool := (0x80 <=? b) && (b <? 0xC0).

Definition kBadChar : Z := 0xFFFD.

(** The code point of a surrogate pair, and the pair of a code point. *)
Definition combine_surrogates (lead trail : Z) : Z :=
  0x10000 + (lead - 0xD800) * 0x400 + (trail - 0xDC00).
Definition lead_of (c : Z) : Z := 0xD800 + (c - 0x10000) / 0x400.
Definition trail_of (c : Z) : Z := 0xDC00 + (c - 0x10000) mod 0x400.

(** The bytes of one code point. *)
Definition encode_cp (c : Z) : list Z :=
  if c <? 0x80 then [c]
  else if c <? 0x800 then [0xC0 + c / 0x40; 0x80 + c mod 0x40]
  else if c <? 0x10000 then
    [0xE0 + c / 0x1000; 0x80 + (c / 0x40) mod 0x40; 0x80 + c mod 0x40]
  else
    [0xF0 + c / 0x40000; 0x80 + (c / 0x1000) mod 0x40;
     0x80 + (c / 0x40) mod 0x40; 0x80 + c mod 0x40].

(** What the engine's UTF-8 writer produces for a string: a lead unit
    followed by a trail unit is written as the four bytes of their code
    point, any other unit as the bytes of the unit itself. *)
Fixpoint utf8_encode (s : ustring) : list Z :=
  match s with
  | [] => []
  | u :: t =>
    match t with
    | v :: t' =>
      if is_lead u && is_trail v
      then encode_cp (combine_surrogates u v) ++ utf8_encode t'
      else encode_cp u ++ utf8_encode t
    | [] => encode_cp u
    end
  end.

(** What the engine's UTF-8 reader produces for a byte sequence.  A byte
    that does not start a well-formed sequence reads as [kBadChar] and the
    reader moves on by one byte. *)
Fixpoint utf8_decode (bs : list Z) : ustring :=
  match bs with
  | [] => []
  | b1 :: r1 =>
    if b1 <? 0x80 then b1 :: utf8_decode r1
    else if b1 <? 0xC0 then kBadChar :: utf8_decode r1
    else if b1 <? 0xE0 then
      match r1 with
      | b2 :: r2 =>
        let c := (b1 - 0xC0) * 0x40 + (b2 - 0x80) in
        if is_cont b2 && (0x80 <=? c)
        then c :: utf8_decode r2
        else kBadChar :: utf8_decode r1
      | [] => [kBadChar]
      end
    else if b1 <? 0xF0 then
      match r1 with
      | b2 :: (b3 :: r3) =>
        let c := (b1 - 0xE0) * 0x1000 + (b2 - 0x80) * 0x40 + (b3 - 0x80) in
        if is_cont b2 && is_cont b3 && (0x800 <=? c)
        then c :: utf8_decode r3
        else kBadChar :: utf8_decode r1
      | _ => kBadChar :: utf8_decode r1
      end
    else if b1 <? 0xF8 then
      match r1 with
      | b2 :: (b3 :: (b4 :: r4)) =>
        let c := (b1 - 0xF0) * 0x40000 + (b2 - 0x80) * 0x1000
                 + (b3 - 0x80) * 0x40 + (b4 - 0x80) in
        if is_cont b2 && is_cont b3 && is_cont b4
           && (0x10000 <=? c) && (c <? 0x110000)
        then lead_of c :: trail_of c :: utf8_decode r4
        else kBadChar :: utf8_decode r1
      | _ => kBadChar :: utf8_decode r1
      end
    else kBadChar :: utf8_decode r1
  end.

(** [std::string(const char* )]: the bytes up to the first NUL of the
    buffer. *)
Fixpoint string_of_c_str (buf : list Z) : std_string :=
  match buf with
  | [] => []
  | b :: r => if b =? 0 then [] else b :: string_of_c_str r
  end.

(** Well-formed text: every unit is 16 bits wide and every surrogate is
    half of a pair. *)
Fixpoint well_formed (s : ustring) : bool :=
  match s with
  | [] => true
  | u :: t =>
    if is_lead u then
      match t with
      | v :: t' => is_trail v && well_formed t'
      | [] => false
      end
    else is_unit u && negb (is_trail u) && well_formed t
  end.

(** No unit of the string is U+0000. *)
Definition nul_free (s : ustring) : bool := forallb (fun u => negb (u =? 0)) s.

(** The units of an ASCII literal. *)
Definition of_ascii (s : string) : list Z :=
  map (fun a => Z.of_nat (nat_of_ascii a)) (list_ascii_of_string s).

End Utf8.

Import Utf8.

(** ** The scripting engine: values, persistent handles, the call log *)

(** A native window, by address. *)
Definition NativeWindow := N.

(** The wrapper object of [browser/api/atom_api_window.h]; its [window()]
    may be NULL. *)
Record Window := { window : option NativeWindow }.

Module v8.

(** A scripting value.  A number is kept by its integer value, which is all
    the bridge reads of it; an object by the wrapper it carries in its
    internal field and the text its string conversion yields; a function by
    its identity and its source text. *)
#[warnings="-register-all"]
Inductive Value :=
| Undefined
| Null
| Boolean (b : bool)
| Number (n : Z)
| String (s : ustring)
| Array (elems : list Value)
| Object (wrapped : option Window) (text : ustring)
| Function (f : nat) (text : ustring).

Definition IsNumber (v : Value) : bool :=
  match v with Number _ => true | _ => false end.
Definition IsString (v : Value) : bool :=
  match v with String _ => true | _ => false end.
Definition IsArray (v : Value) : bool :=
  match v with Array _ => true | _ => false end.
Definition IsFunction (v : Value) : bool :=
  match v with Function _ _ => true | _ => false end.
(** Arrays and functions are objects too. *)
Definition IsObject (v : Value) : bool :=
  match v with Array _ | Object _ _ | Function _ _ => true | _ => false end.

(** The nearest value of the 64-bit range. *)
Definition int64_clamp (z : Z) : Z := Z.max (- 2 ^ 63) (Z.min z (2 ^ 63 - 1)).

(** [Value::IntegerValue] gives a 64-bit integer: the integer value of the
    number, or the bound of the 64-bit range on its side when it lies
    outside.  The bridge applies it to numbers only. *)
Definition IntegerValue (v : Value) : Z :=
  match v with
  | Number n => int64_clamp n
  | Boolean true => 1
  | _ => 0
  end.

(** [Value::ToString]: the text of a value.  Inside an array, [undefined]
    and [null] print as nothing and the elements are joined by commas.  A
    number prints as the digits of its integer value, which is what the
    engine prints for the integers a double holds exactly. *)
Fixpoint ToString (v : Value) : ustring :=
  match v with
  | Undefined => of_ascii "undefined"
  | Null => of_ascii "null"
  | Boolean true => of_ascii "true"
  | Boolean false => of_ascii "false"
  | Number n => of_ascii (NilZero.string_of_int (Z.to_int n))
  | String s => s
  | Array elems =>
    (fix join (l : list Value) : ustring :=
       match l with
       | [] => []
       | x :: rest =>
         let piece := match x with
                      | Undefined | Null => []
                      | _ => ToString x
                      end in
         match rest with
         | [] => piece
         | _ :: _ => piece ++ of_ascii "," ++ join rest
         end
       end) elems
  | Object _ text => text
  | Function _ text => text
  end.

(** [String::Utf8Value]: the NUL-terminated buffer [operator*] points to. *)
Definition Utf8Value (v : Value) : list Z := utf8_encode (ToString v) ++ [0].

(** [String::New(data, length)] and [Integer::New]. *)
Definition String_New (data : std_string) : Value := String (utf8_decode data).
Definition Integer_New (i : Z) : Value := Number i.

(** [Array::New(length)] is an array of holes; [Set(i, v)] stores at an
    index (every index the bridge stores at is below the length). *)
Definition Array_New (length : nat) : list Value := replicate length Undefined.
Definition Array_Set (elems : list Value) (i : nat) (v : Value) : list Value :=
  <[i := v]> elems.

(** [Handle<Function>::Cast]: the function a function value stands for. *)
Definition Function_Cast (v : Value) : nat :=
  match v with Function f _ => f | _ => 0%nat end.

(** The elements of an array, as [Length] and [Get] enumerate them. *)
Definition elements (v : Value) : list Value :=
  match v with Array elems => elems | _ => [] end.

(** [Arguments::operator[]]: a position past the end reads as [undefined]. *)
Definition Arguments := list Value.
Definition at_ (args : Arguments) (i : nat) : Value := default Undefined (args !! i).

(** A persistent handle to a function: empty, or a slot of the handle
    store. *)
Definition Persistent := option nat.
Definition IsEmpty (h : Persistent) : bool :=
  match h with None => true | Some _ => false end.

End v8.

Import v8.

Module base.

(** [base::FilePath] as the POSIX builds have it: the bytes it was given. *)
Record FilePath := { path_ : std_string }.

Definition FromUTF8Unsafe (utf8 : std_string) : FilePath := {| path_ := utf8 |}.
Definition AsUTF8Unsafe (path : FilePath) : std_string := path_ path.

End base.

Import base.

(** The completion handlers the bridge binds with [base::Bind], each
    holding the persistent handle it was bound to. *)
Inductive Completion :=
| Bind_CallV8Function_int (callback : Persistent)
| Bind_CallV8Function2_paths (callback : Persistent)
| Bind_CallV8Function2_path (callback : Persistent).

(** A request to the native layer. *)
Inductive Dialog :=
| MessageBox (parent : option NativeWindow) (type : Z) (buttons : list std_string)
             (title message detail : std_string)
| OpenDialog (parent : option NativeWindow) (title : std_string)
             (default_path : FilePath) (properties : Z)
| SaveDialog (parent : option NativeWindow) (title : std_string)
             (default_path : FilePath).

(** What a call leaves behind, in order. *)
Inductive Event :=
| Shown (d : Dialog) (completion : option Completion)
| Called (slot : nat) (f : nat) (arg : Value)
| Fault (what : string).

(** The state the bridge runs in: the live persistent handles (slot to
    function), the next free slot, the completion handlers the native layer
    holds for dialogs still open, and the log. *)
Record World := {
  handles : gmap nat nat;
  next_handle : nat;
  pending : list Completion;
  trace : list Event
}.

Definition empty_world : World :=
  {| handles := ∅; next_handle := 0; pending := []; trace := [] |}.

(** ** A state monad over [World] *)

Definition M (A : Type) : Type := World -> A * World.

Definition ret {A} (a : A) : M A := fun w => (a, w).
Definition bind {A B} (m : M A) (k : A -> M B) : M B :=
  fun w => let (a, w') := m w in k a w'.

Notation "x <- m ;; k" := (bind m (fun x => k))
  (at level 100, m at next level, right associativity).
Notation "m ;;; k" := (bind m (fun _ => k))
  (at level 100, right associativity).

Definition log (e : Event) : M unit :=
  fun w => (tt, {| handles := handles w; next_handle := next_handle w;
                   pending := pending w; trace := trace w ++ [e] |}).

(** [Persistent<Function>::New]: a fresh slot that keeps the function
    alive. *)
Definition Persistent_New (f : nat) : M Persistent :=
  fun w => (Some (next_handle w),
            {| handles := <[next_handle w := f]> (handles w);
               next_handle := S (next_handle w);
               pending := pending w; trace := trace w |}).

(** [Persistent::Dispose]: the slot is released. *)
Definition Dispose (h : Persistent) : M unit :=
  fun w => (tt, match h with
                | Some slot =>
                  {| handles := delete slot (handles w);
                     next_handle := next_handle w;
                     pending := pending w; trace := trace w |}
                | None => w
                end).

(** [callback->Call(callback, 1, &value)]: the function behind the handle
    is called with one argument.  Calling through an empty or released
    handle is a fault. *)
Definition Call (h : Persistent) (value : Value) : M unit :=
  fun w => match h with
           | Some slot =>
             match handles w !! slot with
             | Some f => log (Called slot f value) w
             | None => log (Fault "released handle") w
             end
           | None => log (Fault "empty handle") w
           end.

(** [DCHECK(cond)]. *)
Definition DCHECK (cond : bool) : M unit :=
  if cond then ret tt else log (Fault "DCHECK").

(** ** The native dialog layer *)

(** What the synchronous primitives answer to a request: the code of the
    chosen button; whether files were selected, and which. *)
Record NativeLayer := {
  message_box :
    option NativeWindow -> Z -> list std_string ->
    std_string -> std_string -> std_string -> Z;
  open_dialog :
    option NativeWindow -> std_string -> FilePath -> Z -> bool * list FilePath;
  save_dialog :
    option NativeWindow -> std_string -> FilePath -> bool * FilePath
}.

(** The asynchronous primitives keep the completion handler until the
    dialog ends. *)
Definition hold (c : Completion) : M unit :=
  fun w => (tt, {| handles := handles w; next_handle := next_handle w;
                   pending := pending w ++ [c]; trace := trace w |}).

Module atom.

Definition ShowMessageBox (native : NativeLayer) (parent : option NativeWindow)
    (type : Z) (buttons : list std_string) (title message detail : std_string) : M Z :=
  log (Shown (MessageBox parent type buttons title message detail) None) ;;;
  ret (message_box native parent type buttons title message detail).

Definition ShowMessageBoxAsync (parent : option NativeWindow)
    (type : Z) (buttons : list std_string) (title message detail : std_string)
    (callback : Completion) : M unit :=
  log (Shown (MessageBox parent type buttons title message detail) (Some callback)) ;;;
  hold callback.

End atom.

Module file_dialog.

Definition ShowOpenDialog (native : NativeLayer) (parent : option NativeWindow)
    (title : std_string) (default_path : FilePath) (properties : Z)
    : M (bool * list FilePath) :=
  log (Shown (OpenDialog parent title default_path properties) None) ;;;
  ret (open_dialog native parent title default_path properties).

Definition ShowOpenDialogAsync (parent : option NativeWindow)
    (title : std_string) (default_path : FilePath) (properties : Z)
    (callback : Completion) : M unit :=
  log (Shown (OpenDialog parent title default_path properties) (Some callback)) ;;;
  hold callback.

Definition ShowSaveDialog (native : NativeLayer) (parent : option NativeWindow)
    (title : std_string) (default_path : FilePath) : M (bool * FilePath) :=
  log (Shown (SaveDialog parent title default_path) None) ;;;
  ret (save_dialog native parent title default_path).

Definition ShowSaveDialogAsync (parent : option NativeWindow)
    (title : std_string) (default_path : FilePath)
    (callback : Completion) : M unit :=
  log (Shown (SaveDialog parent title default_path) (Some callback)) ;;;
  hold callback.

End file_dialog.

(** ** The bridge *)

(** A 64-bit integer narrowed to [int]. *)
Definition int32 (z : Z) : Z := (z + 2 ^ 31) mod 2 ^ 32 - 2 ^ 31.

(** Modelled from the spec: [Window::Unwrap] belongs to the wrapper class of
    browser/api/atom_api_window.h, which is not among the sources.  An
    object that carries an associated native window reference gives that
    wrapper; any other object gives none. *)
Definition Unwrap (v : Value) : option Window :=
  match v with
  | Object wrapped _ => wrapped
  | _ => None
  end.

(** [FromV8Value]: one conversion per target type, chosen by the type the
    call site asks for.  The conversion to a persistent handle allocates, so
    its target is a computation. *)
Class FromV8 (T : Type) := FromV8Value : Value -> T.

#[export] Instance to_std_string : FromV8 std_string :=
  fun value_ => string_of_c_str (Utf8Value value_).

#[export] Instance to_int : FromV8 Z :=
  fun value_ => int32 (IntegerValue value_).

#[export] Instance to_FilePath : FromV8 FilePath :=
  fun value_ => FromUTF8Unsafe (to_std_string value_).

#[export] Instance to_NativeWindow : FromV8 (option NativeWindow) :=
  fun value_ =>
    if IsObject value_ then
      match Unwrap value_ with
      | Some w =>
        match window w with
        | Some native => Some native
        | None => None
        end
      | None => None
      end
    else None.

#[export] Instance to_Persistent : FromV8 (M Persistent) :=
  fun value_ =>
    if IsFunction value_
    then Persistent_New (Function_Cast value_)
    else ret None.

(** [ToV8Value]: one overload per native type. *)
Class ToV8 (T : Type) := ToV8Value : T -> Value.

Inductive void_ptr := NULL.

#[export] Instance FilePath_ToV8 : ToV8 FilePath :=
  fun path => String_New (AsUTF8Unsafe path).

#[export] Instance void_ToV8 : ToV8 void_ptr :=
  fun whatever => Undefined.

#[export] Instance int_ToV8 : ToV8 Z :=
  fun code => Integer_New code.

(** The loop [for (i = 0; i < paths.size(); ++i) result->Set(i, ...)]. *)
Definition set_each (paths : list FilePath) (result : list Value) : list Value :=
  foldl (fun result i =>
           match paths !! i with
           | Some path => Array_Set result i (ToV8Value path)
           | None => result
           end)
        result (seq 0 (length paths)).

#[export] Instance paths_ToV8 : ToV8 (list FilePath) :=
  fun paths => Array (set_each paths (Array_New (length paths))).

Definition CallV8Function {T} `{ToV8 T} (callback : Persistent) (arg : T) : M unit :=
  DCHECK (negb (IsEmpty callback)) ;;;
  let value := ToV8Value arg in
  Call callback value ;;;
  Dispose callback.

Definition CallV8Function2 {T} `{ToV8 T} (callback : Persistent) (result : bool)
    (arg : T) : M unit :=
  if result
  then CallV8Function callback arg
  else CallV8Function callback NULL.

(** What an entry point hands back to the script: a value, or a pending
    type error. *)
Inductive Outcome :=
| Returned (v : Value)
| TypeError (message : string).

Definition ThrowTypeError (message : string) : M Outcome := ret (TypeError message).

Definition ShowMessageBox (native : NativeLayer) (args : Arguments) : M Outcome :=
  if negb (IsNumber (at_ args 0)) ||
     negb (IsArray (at_ args 1)) ||
     negb (IsString (at_ args 2)) ||
     negb (IsString (at_ args 3)) ||
     negb (IsString (at_ args 4))
  then ThrowTypeError "Bad argument"
  else
    let native_window : option NativeWindow := FromV8Value (at_ args 5) in
    callback <- (FromV8Value (at_ args 6) : M Persistent) ;;
    (* the cast to MessageBoxType keeps the integer *)
    let type := int32 (IntegerValue (at_ args 0)) in
    let buttons : list std_string := map FromV8Value (elements (at_ args 1)) in
    let title : std_string := FromV8Value (at_ args 2) in
    let message : std_string := FromV8Value (at_ args 3) in
    let detail : std_string := FromV8Value (at_ args 4) in
    if IsEmpty callback then
      chosen <- atom.ShowMessageBox native native_window type buttons title message detail ;;
      ret (Returned (Integer_New chosen))
    else
      atom.ShowMessageBoxAsync native_window type buttons title message detail
        (Bind_CallV8Function_int callback) ;;;
      ret (Returned Undefined).

Definition ShowOpenDialog (native : NativeLayer) (args : Arguments) : M Outcome :=
  if negb (IsString (at_ args 0)) ||
     negb (IsString (at_ args 1)) ||
     negb (IsNumber (at_ args 2))
  then ThrowTypeError "Bad argument"
  else
    let native_window : option NativeWindow := FromV8Value (at_ args 3) in
    callback <- (FromV8Value (at_ args 4) : M Persistent) ;;
    let title : std_string := FromV8Value (at_ args 0) in
    let default_path : FilePath := FromV8Value (at_ args 1) in
    let properties : Z := FromV8Value (at_ args 2) in
    if IsEmpty callback then
      shown <- file_dialog.ShowOpenDialog native native_window title
                 default_path properties ;;
      let (ok, paths) := shown in
      if negb ok then ret (Returned Undefined)
      else
        let result := set_each paths (Array_New (length paths)) in
        ret (Returned (Array result))
    else
      file_dialog.ShowOpenDialogAsync native_window title default_path properties
        (Bind_CallV8Function2_paths callback) ;;;
      ret (Returned Undefined).

Definition ShowSaveDialog (native : NativeLayer) (args : Arguments) : M Outcome :=
  if negb (IsString (at_ args 0)) ||
     negb (IsString (at_ args 1))
  then ThrowTypeError "Bad argument"
  else
    let native_window : option NativeWindow := FromV8Value (at_ args 2) in
    callback <- (FromV8Value (at_ args 3) : M Persistent) ;;
    let title : std_string := FromV8Value (at_ args 0) in
    let default_path : FilePath := FromV8Value (at_ args 1) in
    if IsEmpty callback then
      shown <- file_dialog.ShowSaveDialog native native_window title default_path ;;
      let (ok, path) := shown in
      if negb ok then ret (Returned Undefined)
      else ret (Returned (ToV8Value path))
    else
      file_dialog.ShowSaveDialogAsync native_window title default_path
        (Bind_CallV8Function2_path callback) ;;;
      ret (Returned Undefined).

(** ** The end of an asynchronous dialog *)

(** What the native layer passes to a completion handler. *)
Inductive Answer :=
| Chosen (code : Z)
| Opened (result : bool) (paths : list FilePath)
| Saved (result : bool) (path : FilePath).

(** Running a bound handler on the arguments the native layer supplies.
    The C++ types pair each handler with its own kind of answer; the other
    pairs do not arise. *)
Definition Run (c : Completion) (a : Answer) : M unit :=
  match c, a with
  | Bind_CallV8Function_int callback, Chosen code =>
    CallV8Function callback code
  | Bind_CallV8Function2_paths callback, Opened result paths =>
    CallV8Function2 callback result paths
  | Bind_CallV8Function2_path callback, Saved result path =>
    CallV8Function2 callback result path
  | _, _ => ret tt
  end.

(** The native layer ends the [k]-th open dialog: it gives up the handler
    it held for it and runs it once. *)
Definition complete (k : nat) (a : Answer) : M unit :=
  fun w =>
    match pending w !! k with
    | Some c =>
      Run c a {| handles := handles w; next_handle := next_handle w;
                 pending := delete k (pending w); trace := trace w |}
    | None => (tt, w)
    end.

(** The callback invocations of a log, in order. *)
Definition calls (t : list Event) : list (nat * Value) :=
  omap (fun e => match e with Called _ f arg => Some (f, arg) | _ => None end) t.

(** The handles a log shows a call through, in order. *)
Definition fired (t : list Event) : list nat :=
  omap (fun e => match e with Called slot _ _ => Some slot | _ => None end) t.

(** The dialogs a log shows, in order. *)
Definition shown (t : list Event) : list Dialog :=
  omap (fun e => match e with Shown d _ => Some d | _ => None end) t.

(** The faults of a log. *)
Definition faults (t : list Event) : list string :=
  omap (fun e => match e with Fault what => Some what | _ => None end) t.

(** ** The operations the module exports *)

Inductive Operation := showMessageBox | showOpenDialog | showSaveDialog.

(** [Initialize]: the entry point registered under each name. *)
Definition entry (op : Operation) : NativeLayer -> Arguments -> M Outcome :=
  match op with
  | showMessageBox => ShowMessageBox
  | showOpenDialog => ShowOpenDialog
  | showSaveDialog => ShowSaveDialog
  end.

(** The shape each entry point tests at each leading position. *)
Definition declared (op : Operation) : list (Value -> bool) :=
  match op with
  | showMessageBox => [IsNumber; IsArray; IsString; IsString; IsString]
  | showOpenDialog => [IsString; IsString; IsNumber]
  | showSaveDialog => [IsString; IsString]
  end.

(** The positions of the window and of the callback follow the tested
    ones. *)
Definition window_index (op : Operation) : nat := length (declared op).
Definition callback_index (op : Operation) : nat := S (length (declared op)).

(** Every tested position holds a value of its shape. *)
Definition passes (op : Operation) (args : Arguments) : bool :=
  forallb (fun b : bool => b) (imap (fun i shape => shape (at_ args i)) (declared op)).

(** The argument list with position [i] holding [v]; shorter lists are
    padded with [undefined], which is what reading past the end gives. *)
Definition with_arg (args : Arguments) (i : nat) (v : Value) : Arguments :=
  <[i := v]> (args ++ replicate (S i - length args) Undefined).

(** The request an accepted call puts to the native layer. *)
Definition native_arguments (op : Operation) (args : Arguments) : Dialog :=
  match op with
  | showMessageBox =>
    MessageBox (FromV8Value (at_ args 5)) (int32 (IntegerValue (at_ args 0)))
               (map FromV8Value (elements (at_ args 1)))
               (FromV8Value (at_ args 2)) (FromV8Value (at_ args 3))
               (FromV8Value (at_ args 4))
  | showOpenDialog =>
    OpenDialog (FromV8Value (at_ args 3)) (FromV8Value (at_ args 0))
               (FromV8Value (at_ args 1)) (FromV8Value (at_ args 2))
  | showSaveDialog =>
    SaveDialog (FromV8Value (at_ args 2)) (FromV8Value (at_ args 0))
               (FromV8Value (at_ args 1))
  end.

(** The handler an operation binds to a handle. *)
Definition bound (op : Operation) (callback : Persistent) : Completion :=
  match op with
  | showMessageBox => Bind_CallV8Function_int callback
  | showOpenDialog => Bind_CallV8Function2_paths callback
  | showSaveDialog => Bind_CallV8Function2_path callback
  end.

(** The answer of the native layer to a request. *)
Definition answer (native : NativeLayer) (d : Dialog) : Answer :=
  match d with
  | MessageBox parent type buttons title message detail =>
    Chosen (message_box native parent type buttons title message detail)
  | OpenDialog parent title default_path properties =>
    let (ok, paths) := open_dialog native parent title default_path properties in
    Opened ok paths
  | SaveDialog parent title default_path =>
    let (ok, path) := save_dialog native parent title default_path in
    Saved ok path
  end.

(** An answer is of the kind the operation's primitives give. *)
Definition fits (op : Operation) (a : Answer) : bool :=
  match op, a with
  | showMessageBox, Chosen _ => true
  | showOpenDialog, Opened _ _ => true
  | showSaveDialog, Saved _ _ => true
  | _, _ => false
  end.

(** Whether an answer reports a selection; a message box always does. *)
Definition selected (a : Answer) : bool :=
  match a with
  | Chosen _ => true
  | Opened result _ => result
  | Saved result _ => result
  end.

(** The scripting value of an answer, in the words of the specification: the
    result coerced to a scripting value, or the no-value sentinel when the
    success flag is false. *)
Definition delivered_value (a : Answer) : Value :=
  match a with
  | Chosen code => Number code
  | Opened true paths => Array (map (fun p => String (utf8_decode (path_ p))) paths)
  | Saved true path => String (utf8_decode (path_ path))
  | Opened false _ | Saved false _ => Undefined
  end.

(** The world an accepted asynchronous call leaves: the callback is kept
    alive by a fresh handle, the native layer has shown the dialog and
    holds the handler bound to that handle. *)
Definition scheduled (op : Operation) (args : Arguments) (f : nat) (w : World) : World :=
  {| handles := <[next_handle w := f]> (handles w);
     next_handle := S (next_handle w);
     pending := pending w ++ [bound op (Some (next_handle w))];
     trace := trace w ++ [Shown (native_arguments op args)
                                (Some (bound op (Some (next_handle w))))] |}.

(** The world an accepted synchronous call leaves: the dialog was shown,
    nothing else changed. *)
Definition answered (op : Operation) (args : Arguments) (w : World) : World :=
  {| handles := handles w; next_handle := next_handle w; pending := pending w;
     trace := trace w ++ [Shown (native_arguments op args) None] |}.

(** The world after the native layer has ended the dialog of an accepted
    asynchronous call with the answer [a]: the callback was called with the
    value of the answer, its handle is released, and the native layer holds
    the handlers it held before the call. *)
Definition completed (op : Operation) (args : Arguments) (f : nat) (a : Answer)
    (w : World) : World :=
  {| handles := delete (next_handle w) (<[next_handle w := f]> (handles w));
     next_handle := S (next_handle w);
     pending := pending w;
     trace := (trace w ++ [Shown (native_arguments op args)
                                 (Some (bound op (Some (next_handle w))))])
              ++ [Called (next_handle w) f (delivered_value a)] |}.

(** ** Runs *)

(** The handle a bound handler carries, and the kind of answer its C++ type
    takes. *)
Definition handle_of (c : Completion) : Persistent :=
  match c with
  | Bind_CallV8Function_int callback => callback
  | Bind_CallV8Function2_paths callback => callback
  | Bind_CallV8Function2_path callback => callback
  end.

Definition takes (c : Completion) (a : Answer) : bool :=
  match c, a with
  | Bind_CallV8Function_int _, Chosen _ => true
  | Bind_CallV8Function2_paths _, Opened _ _ => true
  | Bind_CallV8Function2_path _, Saved _ _ => true
  | _, _ => false
  end.

(** One step of a run: the script calls an entry point, or the native layer
    ends one of the open dialogs with an answer of its kind. *)
Inductive step (native : NativeLayer) : World -> World -> Prop :=
| step_call (op : Operation) (args : Arguments) (w : World) :
    step native w (snd (entry op native args w))
| step_complete (k : nat) (c : Completion) (a : Answer) (w : World) :
    pending w !! k = Some c ->
    takes c a = true ->
    step native w (snd (complete k a w)).

Inductive reachable (native : NativeLayer) : World -> Prop :=
| reachable_empty : reachable native empty_world
| reachable_step (w w' : World) :
    reachable native w -> step native w w' -> reachable native w'.

(** What holds of every world of a run.  The handlers the native layer holds
    carry distinct handles, and these are exactly the live ones; every handle
    called through was called through once and has been released; nothing
    ever went wrong. *)
Record sound (w : World) : Prop := {
  held_nonempty : Forall (fun c => is_Some (handle_of c)) (pending w);
  held_distinct : NoDup (handle_of <$> pending w);
  held_live : forall slot,
      Some slot ∈ handle_of <$> pending w <-> is_Some (handles w !! slot);
  held_below : forall slot, is_Some (handles w !! slot) -> (slot < next_handle w)%nat;
  fired_once : NoDup (fired (trace w));
  fired_released : forall slot,
      slot ∈ fired (trace w) -> handles w !! slot = None /\ (slot < next_handle w)%nat;
  no_fault : faults (trace w) = []
}.

(** The window a request is attached to, and the button labels of a
    message box. *)
Definition parent_of (d : Dialog) : option NativeWindow :=
  match d with
  | MessageBox parent _ _ _ _ _ => parent
  | OpenDialog parent _ _ _ => parent
  | SaveDialog parent _ _ => parent
  end.

Definition buttons_of (d : Dialog) : list std_string :=
  match d with
  | MessageBox _ _ buttons _ _ _ => buttons
  | _ => []
  end.

(** ** Sample calls *)

(** A native layer where the first button is chosen, the open dialog is
    cancelled and the save dialog names a file. *)
Definition sample_native : NativeLayer :=
  {| message_box := fun _ _ _ _ _ _ => 0;
     open_dialog := fun _ _ _ _ => (false, []);
     save_dialog := fun _ _ _ =>
       (true, {| path_ := utf8_encode (of_ascii "/tmp/x/out.txt") |}) |}.

Definition sample_cb : Value := Function 7 (of_ascii "function(r){}").

Definition message_box_args : Arguments :=
  [Number 0; Array [String (of_ascii "OK"); String (of_ascii "Cancel")];
   String (of_ascii "T"); String (of_ascii "M"); String (of_ascii "D")].

Definition open_dialog_args : Arguments :=
  [String (of_ascii "Open"); String []; Number 0; Undefined; sample_cb].

Definition save_dialog_args : Arguments :=
  [String (of_ascii "Save"); String (of_ascii "/tmp/x")].

(** A native layer whose message box is dismissed. *)
Definition dismissing_native : NativeLayer :=
  {| message_box := fun _ _ _ _ _ _ => -1;
     open_dialog := fun _ _ _ _ => (false, []);
     save_dialog := fun _ _ _ => (false, {| path_ := [] |}) |}.

(** A message box whose only label holds a NUL between two letters. *)
Definition nul_label_args : Arguments :=
  [Number 0; Array [String [97; 0; 98]];
   String (of_ascii "T"); String (of_ascii "M"); String (of_ascii "D")].

(** A message box whose labels are of several shapes. *)
Definition mixed_label_args : Arguments :=
  [Number 1; Array [Number 1; Boolean true; Null; String (of_ascii "OK")];
   String (of_ascii "T"); String (of_ascii "M"); String (of_ascii "D")].



(** * Properties *)

(** ** The array built by the index loop *)

Lemma set_each_prefix (paths : list FilePath) (k : nat) :
  (k <= length paths)%nat ->
  foldl (fun result i =>
           match paths !! i with
           | Some path => Array_Set result i (ToV8Value path)
           | None => result
           end)
        (Array_New (length paths)) (seq 0 k)
  = map ToV8Value (take k paths) ++ replicate (length paths - k) Undefined.
Proof.
  induction k as [|k IH]; intros Hk.
  - simpl. rewrite Nat.sub_0_r. reflexivity.
  - rewrite seq_S, foldl_app, IH by lia. simpl.
    destruct (lookup_lt_is_Some_2 paths k) as [p Hp]; [lia|].
    rewrite Hp. unfold Array_Set.
    rewrite (take_S_r _ _ _ Hp), map_app. simpl.
    replace (length paths - k)%nat with (S (length paths - S k)) by lia.
    simpl. rewrite insert_app_r_alt.
    + rewrite length_map, length_take, Nat.min_l, Nat.sub_diag by lia.
      simpl. rewrite <- app_assoc. reflexivity.
    + rewrite length_map, length_take. lia.
Qed.

Lemma set_each_map (paths : list FilePath) :
  set_each paths (Array_New (length paths)) = map ToV8Value paths.
Proof.
  unfold set_each. rewrite set_each_prefix by lia.
  rewrite firstn_all, Nat.sub_diag. simpl. apply app_nil_r.
Qed.

Lemma ToV8Value_paths (paths : list FilePath) :
  ToV8Value paths = Array (map (fun p => String (utf8_decode (path_ p))) paths).
Proof.
  unfold ToV8Value at 1, paths_ToV8. rewrite set_each_map. reflexivity.
Qed.

(** ** The three ways a call can go *)

Local Ltac shapes H :=
  unfold passes in H; simpl in H;
  repeat (apply andb_prop in H; let H' := fresh "Hshape" in destruct H as [H' H]);
  clear H.

Lemma passes_false_shape (op : Operation) (args : Arguments) :
  passes op args = false <->
  exists i shape, declared op !! i = Some shape /\ shape (at_ args i) = false.
Proof.
  split.
  - intros H. destruct op; unfold passes in H; simpl in H;
      repeat match type of H with
             | (?b && _)%bool = false =>
               destruct b eqn:?; [simpl in H | clear H]
             | true = false => discriminate H
             end;
      match goal with
      | Hb : ?shape (at_ args ?i) = false |- _ =>
        exists i, shape; split; [reflexivity | exact Hb]
      end.
  - intros (i & shape & Hd & Hs).
    destruct op; simpl in Hd;
      repeat (destruct i as [|i]; simpl in Hd;
              [injection Hd as <-; unfold passes; simpl; rewrite Hs;
               repeat (reflexivity || apply andb_false_r ||
                       (rewrite andb_false_r) || (rewrite andb_false_l))|]);
      discriminate Hd.
Qed.

Lemma entry_rejects (op : Operation) (native : NativeLayer) (args : Arguments) (w : World) :
  passes op args = false ->
  entry op native args w = (TypeError "Bad argument", w).
Proof.
  intros H. destruct op; unfold passes in H; simpl in H; unfold entry;
    [unfold ShowMessageBox | unfold ShowOpenDialog | unfold ShowSaveDialog];
    repeat match type of H with
           | (?b && _)%bool = false => destruct b; simpl in H
           | true = false => discriminate H
           end;
    reflexivity.
Qed.

Lemma entry_sync (op : Operation) (native : NativeLayer) (args : Arguments) (w : World) :
  passes op args = true ->
  IsFunction (at_ args (callback_index op)) = false ->
  entry op native args w
  = (Returned (delivered_value (answer native (native_arguments op args))),
     answered op args w).
Proof.
  intros H Hcb.
  destruct op; shapes H; unfold callback_index in Hcb; simpl in Hcb; unfold entry;
    [unfold ShowMessageBox | unfold ShowOpenDialog | unfold ShowSaveDialog];
    repeat match goal with Hs : _ = true |- _ => rewrite Hs; clear Hs end;
    cbn [negb orb]; unfold bind.
  - destruct (at_ args 6); try discriminate Hcb; reflexivity.
  - destruct (at_ args 4); try discriminate Hcb;
      unfold FromV8Value at 2, to_Persistent, ret, answered, native_arguments, answer, file_dialog.ShowOpenDialog,
        bind, log, ret; cbn [IsEmpty];
      destruct (open_dialog _ _ _ _ _) as [[] paths]; cbn [negb delivered_value];
      rewrite ?set_each_map; reflexivity.
  - destruct (at_ args 3); try discriminate Hcb;
      unfold FromV8Value at 2, to_Persistent, ret, answered, native_arguments, answer, file_dialog.ShowSaveDialog,
        bind, log, ret; cbn [IsEmpty];
      destruct (save_dialog _ _ _ _) as [[] path]; cbn [negb delivered_value];
      reflexivity.
Qed.

Lemma entry_async (op : Operation) (native : NativeLayer) (args : Arguments) (w : World)
    (f : nat) (text : ustring) :
  passes op args = true ->
  at_ args (callback_index op) = Function f text ->
  entry op native args w = (Returned Undefined, scheduled op args f w).
Proof.
  intros H Hcb.
  destruct op; shapes H; unfold callback_index in Hcb; simpl in Hcb; unfold entry;
    [unfold ShowMessageBox | unfold ShowOpenDialog | unfold ShowSaveDialog];
    repeat match goal with Hs : _ = true |- _ => rewrite Hs; clear Hs end;
    cbn [negb orb]; unfold bind;
    rewrite Hcb; reflexivity.
Qed.

Lemma complete_scheduled (op : Operation) (args : Arguments) (f : nat) (a : Answer)
    (w : World) :
  fits op a = true ->
  complete (length (pending w)) a (scheduled op args f w)
  = (tt, completed op args f a w).
Proof.
  intros Hfit. unfold complete, scheduled, completed.
  cbn [pending handles next_handle trace].
  rewrite list_lookup_middle by reflexivity.
  replace (delete (length (pending w)) (pending w ++ [bound op (Some (next_handle w))]))
    with (pending w)
    by (rewrite delete_middle; symmetry; apply app_nil_r).
  destruct op, a; try discriminate Hfit; cbn [bound Run];
    unfold CallV8Function2, CallV8Function, bind, DCHECK, Call, Dispose, log, ret;
    try destruct result;
    cbn [IsEmpty negb pending handles next_handle trace];
    rewrite (lookup_insert_eq (handles w)); cbn [pending handles next_handle trace];
    rewrite ?ToV8Value_paths; reflexivity.
Qed.

Lemma calls_app (t u : list Event) : calls (t ++ u) = calls t ++ calls u.
Proof. apply omap_app. Qed.

Lemma shown_app (t u : list Event) : shown (t ++ u) = shown t ++ shown u.
Proof. apply omap_app. Qed.

Lemma faults_app (t u : list Event) : faults (t ++ u) = faults t ++ faults u.
Proof. apply omap_app. Qed.

(** Reading an argument list changed at one position. *)
Lemma at_with_arg_eq (args : Arguments) (i : nat) (v : Value) :
  at_ (with_arg args i v) i = v.
Proof.
  unfold at_, with_arg, Arguments in *. rewrite list_lookup_insert_eq; [reflexivity|].
  rewrite length_app, length_replicate. lia.
Qed.

Lemma at_with_arg_ne (args : Arguments) (i j : nat) (v : Value) :
  i <> j -> at_ (with_arg args i v) j = at_ args j.
Proof.
  intros Hne. unfold at_, with_arg, Arguments in *.
  rewrite list_lookup_insert_ne by exact Hne.
  destruct (decide (j < length args)%nat) as [Hlt|Hge].
  - rewrite lookup_app_l by exact Hlt. reflexivity.
  - rewrite (lookup_ge_None_2 args j) by lia. simpl.
    destruct ((args ++ replicate (S i - length args) Undefined) !! j) as [x|] eqn:Hx;
      [|reflexivity].
    rewrite lookup_app_r in Hx by lia.
    apply lookup_replicate in Hx as [-> _]. reflexivity.
Qed.

(** The callback position is not among the tested ones, so what it holds
    does not matter to validation nor to the request. *)
Lemma passes_with_callback (op : Operation) (args : Arguments) (v : Value) :
  passes op (with_arg args (callback_index op) v) = passes op args.
Proof.
  destruct op; unfold passes, callback_index; simpl;
    rewrite !at_with_arg_ne by lia; reflexivity.
Qed.

Lemma native_arguments_with_callback (op : Operation) (args : Arguments) (v : Value) :
  native_arguments op (with_arg args (callback_index op) v) = native_arguments op args.
Proof.
  destruct op; unfold native_arguments, callback_index; simpl;
    rewrite !at_with_arg_ne by lia; reflexivity.
Qed.

(** ** The UTF-8 writer and reader *)

Local Ltac zcase :=
  repeat match goal with
         | |- context [?a <? ?b] =>
           destruct (Z.ltb_spec a b);
           try (exfalso; Z.div_mod_to_equations; lia)
         | |- context [?a <=? ?b] =>
           destruct (Z.leb_spec a b);
           try (exfalso; Z.div_mod_to_equations; lia)
         | |- context [?a =? ?b] =>
           destruct (Z.eqb_spec a b);
           try (exfalso; Z.div_mod_to_equations; lia)
         end.

Lemma decode_encode_cp (c : Z) (r : list Z) :
  0 <= c < 0x10000 ->
  utf8_decode (encode_cp c ++ r) = c :: utf8_decode r.
Proof.
  intros Hc. unfold encode_cp.
  destruct (Z.ltb_spec c 0x80); [|destruct (Z.ltb_spec c 0x800);
                                   [|destruct (Z.ltb_spec c 0x10000); [|lia]]];
    cbn [app utf8_decode]; unfold is_cont; zcase; cbn [andb];
    f_equal; Z.div_mod_to_equations; lia.
Qed.

Lemma decode_encode_pair (u v : Z) (r : list Z) :
  is_lead u = true -> is_trail v = true ->
  utf8_decode (encode_cp (combine_surrogates u v) ++ r) = u :: v :: utf8_decode r.
Proof.
  unfold is_lead, is_trail, combine_surrogates, encode_cp.
  intros [Hu1 Hu2]%andb_prop [Hv1 Hv2]%andb_prop.
  apply Z.leb_le in Hu1, Hv1. apply Z.ltb_lt in Hu2, Hv2.
  set (c := 0x10000 + (u - 0xD800) * 0x400 + (v - 0xDC00)).
  assert (Hc : 0x10000 <= c < 0x110000) by (subst c; lia).
  destruct (Z.ltb_spec c 0x80); [lia|].
  destruct (Z.ltb_spec c 0x800); [lia|].
  destruct (Z.ltb_spec c 0x10000); [lia|].
  cbn [app utf8_decode]; unfold is_cont, lead_of, trail_of; zcase; cbn [andb].
  assert (He : (0xF0 + c / 0x40000 - 0xF0) * 0x40000
               + (0x80 + (c / 0x1000) mod 0x40 - 0x80) * 0x1000
               + (0x80 + (c / 0x40) mod 0x40 - 0x80) * 0x40
               + (0x80 + c mod 0x40 - 0x80) = c)
    by (Z.div_mod_to_equations; lia).
  rewrite He. f_equal; [|f_equal]; subst c; Z.div_mod_to_equations; lia.
Qed.

Lemma utf8_encode_cons2 (u v : Z) (t : ustring) :
  utf8_encode (u :: v :: t)
  = if is_lead u && is_trail v
    then encode_cp (combine_surrogates u v) ++ utf8_encode t
    else encode_cp u ++ utf8_encode (v :: t).
Proof. reflexivity. Qed.

Lemma well_formed_cons2 (u v : Z) (t : ustring) :
  well_formed (u :: v :: t)
  = if is_lead u then is_trail v && well_formed t
    else is_unit u && negb (is_trail u) && well_formed (v :: t).
Proof. reflexivity. Qed.

(** Reading back what the writer wrote gives the string again, for
    well-formed text. *)
Lemma decode_encode (s : ustring) :
  well_formed s = true -> utf8_decode (utf8_encode s) = s.
Proof.
  remember (length s) as n eqn:Hn. revert s Hn.
  induction n as [n IH] using lt_wf_ind. intros s Hn Hwf.
  destruct s as [|u [|v t]].
  - reflexivity.
  - cbn [well_formed utf8_encode] in *.
    destruct (is_lead u); [discriminate Hwf|].
    apply andb_prop in Hwf as [[Hu _]%andb_prop _].
    unfold is_unit in Hu. apply andb_prop in Hu as [Hu1 Hu2].
    apply Z.leb_le in Hu1. apply Z.ltb_lt in Hu2.
    rewrite <- (app_nil_r (encode_cp u)). rewrite decode_encode_cp by lia.
    reflexivity.
  - rewrite well_formed_cons2 in Hwf. rewrite utf8_encode_cons2.
    destruct (is_lead u) eqn:Hlead.
    + apply andb_prop in Hwf as [Hv Ht]. rewrite Hv. cbn [andb].
      rewrite decode_encode_pair by assumption.
      rewrite (IH (length t)); [reflexivity | simpl in Hn; lia | reflexivity | exact Ht].
    + cbn [andb].
      apply andb_prop in Hwf as [[Hu _]%andb_prop Ht].
      unfold is_unit in Hu. apply andb_prop in Hu as [Hu1 Hu2].
      apply Z.leb_le in Hu1. apply Z.ltb_lt in Hu2.
      rewrite decode_encode_cp by lia.
      rewrite (IH (length (v :: t))); [reflexivity | simpl in *; lia | reflexivity | exact Ht].
Qed.

(** The writer produces a NUL byte only for a NUL unit. *)
Lemma encode_cp_nonzero (c : Z) : c <> 0 -> Forall (fun b => b <> 0) (encode_cp c).
Proof.
  intros Hc. unfold encode_cp.
  destruct (Z.ltb_spec c 0x80); [|destruct (Z.ltb_spec c 0x800);
                                   [|destruct (Z.ltb_spec c 0x10000)]];
    repeat constructor; Z.div_mod_to_equations; lia.
Qed.

Lemma encode_nonzero (s : ustring) :
  nul_free s = true -> Forall (fun b => b <> 0) (utf8_encode s).
Proof.
  remember (length s) as n eqn:Hn. revert s Hn.
  induction n as [n IH] using lt_wf_ind. intros s Hn Hs.
  destruct s as [|u [|v t]].
  - constructor.
  - cbn [utf8_encode]. simpl in Hs. apply andb_prop in Hs as [Hu _].
    apply encode_cp_nonzero. destruct (Z.eqb_spec u 0); [discriminate Hu | assumption].
  - rewrite utf8_encode_cons2.
    simpl in Hs. apply andb_prop in Hs as [Hu [Hv Ht]%andb_prop].
    destruct (is_lead u && is_trail v) eqn:Hpair.
    + apply Forall_app. split.
      * apply encode_cp_nonzero.
        apply andb_prop in Hpair as [Hl Htr]. unfold is_lead, is_trail in *.
        apply andb_prop in Hl as [Hl1 Hl2]. apply andb_prop in Htr as [Ht1 Ht2].
        apply Z.leb_le in Hl1, Ht1. apply Z.ltb_lt in Hl2, Ht2.
        unfold combine_surrogates. lia.
      * apply (IH (length t)); [simpl in Hn; lia | reflexivity | exact Ht].
    + apply Forall_app. split.
      * apply encode_cp_nonzero.
        destruct (Z.eqb_spec u 0); [discriminate Hu | assumption].
      * apply (IH (length (v :: t))); [simpl in *; lia | reflexivity |].
        simpl. rewrite Hv, Ht. reflexivity.
Qed.

(** A buffer without an inner NUL is read whole up to its terminator. *)
Lemma string_of_c_str_terminated (bs : list Z) :
  Forall (fun b => b <> 0) bs -> string_of_c_str (bs ++ [0]) = bs.
Proof.
  induction 1 as [|b bs Hb _ IH]; [reflexivity|].
  simpl. destruct (Z.eqb_spec b 0); [contradiction|]. rewrite IH. reflexivity.
Qed.

(** A buffer is read up to its first NUL. *)
Lemma string_of_c_str_cut (bs rest : list Z) :
  Forall (fun b => b <> 0) bs -> string_of_c_str (bs ++ 0 :: rest) = bs.
Proof.
  induction 1 as [|b bs Hb _ IH]; [reflexivity|].
  simpl. destruct (Z.eqb_spec b 0); [contradiction|]. rewrite IH. reflexivity.
Qed.

Lemma to_std_string_nul_free (v : Value) :
  nul_free (ToString v) = true ->
  to_std_string v = utf8_encode (ToString v).
Proof.
  intros H. unfold to_std_string, Utf8Value.
  apply string_of_c_str_terminated, encode_nonzero, H.
Qed.

(** ** What the log of each world holds *)

Lemma fits_answer (op : Operation) (native : NativeLayer) (args : Arguments) :
  fits op (answer native (native_arguments op args)) = true.
Proof.
  destruct op; simpl; try reflexivity.
  - destruct (open_dialog _ _ _ _ _); reflexivity.
  - destruct (save_dialog _ _ _ _); reflexivity.
Qed.

Lemma calls_answered (op : Operation) (args : Arguments) (w : World) :
  calls (trace (answered op args w)) = calls (trace w).
Proof. unfold answered. cbn [trace]. rewrite calls_app. apply app_nil_r. Qed.

Lemma calls_scheduled (op : Operation) (args : Arguments) (f : nat) (w : World) :
  calls (trace (scheduled op args f w)) = calls (trace w).
Proof. unfold scheduled. cbn [trace]. rewrite calls_app. apply app_nil_r. Qed.

Lemma calls_completed (op : Operation) (args : Arguments) (f : nat) (a : Answer)
    (w : World) :
  calls (trace (completed op args f a w)) = calls (trace w) ++ [(f, delivered_value a)].
Proof.
  unfold completed. cbn [trace]. rewrite !calls_app. simpl.
  rewrite app_nil_r. reflexivity.
Qed.

Lemma to_NativeWindow_carried (v : Value) (n : NativeWindow) :
  (FromV8Value v : option NativeWindow) = Some n <->
  exists text, v = Object (Some {| window := Some n |}) text.
Proof.
  split.
  - destruct v as [| | | | | |[[[m|]]|] text|]; try discriminate.
    intros [= ->]. exists text. reflexivity.
  - intros [text ->]. reflexivity.
Qed.

Lemma to_Persistent_not_function (v : Value) (w : World) :
  IsFunction v = false -> (FromV8Value v : M Persistent) w = (None, w).
Proof. destruct v; try discriminate; reflexivity. Qed.

(** ** Where a string with a NUL is cut *)

Lemma utf8_encode_nul (rest : ustring) : utf8_encode (0 :: rest) = 0 :: utf8_encode rest.
Proof. destruct rest; reflexivity. Qed.

Lemma utf8_encode_before_nul (p rest : ustring) :
  utf8_encode (p ++ 0 :: rest) = utf8_encode p ++ 0 :: utf8_encode rest.
Proof.
  remember (length p) as n eqn:Hn. revert p Hn.
  induction n as [n IH] using lt_wf_ind. intros p Hn.
  destruct p as [|u [|v t]].
  - apply utf8_encode_nul.
  - change ([u] ++ 0 :: rest) with (u :: 0 :: rest).
    rewrite utf8_encode_cons2, utf8_encode_nul.
    replace (is_lead u && is_trail 0) with false by (symmetry; apply andb_false_r).
    reflexivity.
  - change ((u :: v :: t) ++ 0 :: rest) with (u :: v :: (t ++ 0 :: rest)).
    rewrite !utf8_encode_cons2.
    destruct (is_lead u && is_trail v).
    + rewrite (IH (length t)) by (simpl in Hn; lia || reflexivity).
      rewrite app_assoc. reflexivity.
    + change (v :: t ++ 0 :: rest) with ((v :: t) ++ 0 :: rest).
      rewrite (IH (length (v :: t))) by (simpl in *; lia || reflexivity).
      rewrite app_assoc. reflexivity.
Qed.

(** Of a text with a NUL, the native side gets the bytes of the part before
    the NUL. *)
Lemma c_str_prefix (p rest : ustring) :
  nul_free p = true ->
  string_of_c_str (utf8_encode (p ++ 0 :: rest) ++ [0]) = utf8_encode p.
Proof.
  intros Hnul. rewrite utf8_encode_before_nul, <- app_assoc.
  change ((0 :: utf8_encode rest) ++ [0]) with (0 :: (utf8_encode rest ++ [0])).
  apply string_of_c_str_cut, encode_nonzero, Hnul.
Qed.

(** What comes back of a string with a NUL is the part before the NUL. *)
Lemma round_trip_prefix (p rest : ustring) :
  well_formed p = true ->
  nul_free p = true ->
  ToV8Value (FromV8Value (String (p ++ 0 :: rest)) : FilePath) = String p.
Proof.
  intros Hwf Hnul.
  unfold FromV8Value, to_FilePath, ToV8Value, FilePath_ToV8, String_New,
    AsUTF8Unsafe, FromUTF8Unsafe, to_std_string, Utf8Value.
  cbn [path_ ToString].
  rewrite c_str_prefix by exact Hnul.
  rewrite decode_encode by exact Hwf. reflexivity.
Qed.

(** ** What holds of every world of a run *)

Lemma fired_app (t u : list Event) : fired (t ++ u) = fired t ++ fired u.
Proof. apply omap_app. Qed.

Lemma handle_of_bound (op : Operation) (h : Persistent) : handle_of (bound op h) = h.
Proof. destruct op; reflexivity. Qed.

Lemma takes_bound (op : Operation) (h : Persistent) (a : Answer) :
  takes (bound op h) a = fits op a.
Proof. destruct op, a; reflexivity. Qed.

(** Dropping one position of a list without repetition drops one element. *)
Lemma elem_of_delete_NoDup {A} (l : list A) (k : nat) (x y : A) :
  l !! k = Some x -> NoDup l -> y ∈ delete k l <-> y ∈ l /\ y <> x.
Proof.
  intros Hk Hnd. rewrite delete_take_drop.
  rewrite <- (take_drop_middle l k x Hk) in Hnd at 1.
  rewrite <- (take_drop_middle l k x Hk) at 3.
  apply NoDup_app in Hnd as (_ & Hleft & [Hright _]%NoDup_cons).
  rewrite !elem_of_app, elem_of_cons. split.
  - intros [Hy|Hy].
    + split; [left; exact Hy|]. intros ->. apply (Hleft x Hy). left.
    + split; [right; right; exact Hy|]. intros ->. exact (Hright Hy).
  - intros [[Hy|[->|Hy]] Hne]; [left; exact Hy | contradiction | right; exact Hy].
Qed.

Lemma sound_empty : sound empty_world.
Proof.
  split; cbn [empty_world pending handles next_handle trace].
  - constructor.
  - constructor.
  - intros slot. rewrite lookup_empty. split.
    + intros H. inversion H.
    + intros H. destruct (is_Some_None H).
  - intros slot. rewrite lookup_empty. intros H. destruct (is_Some_None H).
  - constructor.
  - intros slot H. inversion H.
  - reflexivity.
Qed.

Lemma sound_answered (op : Operation) (args : Arguments) (w : World) :
  sound w -> sound (answered op args w).
Proof.
  intros [H1 H2 H3 H4 H5 H6 H7].
  split; unfold answered; cbn [pending handles next_handle trace];
    rewrite ?fired_app, ?faults_app; cbn [fired faults omap]; rewrite ?app_nil_r;
    assumption.
Qed.

Lemma sound_scheduled (op : Operation) (args : Arguments) (f : nat) (w : World) :
  sound w -> sound (scheduled op args f w).
Proof.
  intros [H1 H2 H3 H4 H5 H6 H7].
  split; unfold scheduled; cbn [pending handles next_handle trace];
    rewrite ?fired_app, ?faults_app; cbn [fired faults omap]; rewrite ?app_nil_r;
    try assumption.
  - apply Forall_app. split; [exact H1|].
    constructor; [|constructor]. rewrite handle_of_bound. eexists; reflexivity.
  - rewrite fmap_app. apply NoDup_app. split; [exact H2|]. split.
    + intros x Hx Hin. cbn in Hin. rewrite handle_of_bound in Hin.
      apply list_elem_of_singleton in Hin as ->.
      apply H3, H4 in Hx. lia.
    + apply NoDup_singleton.
  - intros slot. rewrite fmap_app, elem_of_app. cbn. rewrite handle_of_bound.
    rewrite list_elem_of_singleton, (lookup_insert_is_Some (handles w)), H3.
    split.
    + intros [H|[= ->]]; [|left; reflexivity].
      destruct (decide (next_handle w = slot)); [left; assumption | right; split; assumption].
    + intros [->|[_ H]]; [right; reflexivity | left; exact H].
  - intros slot. rewrite (lookup_insert_is_Some (handles w)).
    intros [<-|[_ H]]; [lia|]. apply H4 in H. lia.
  - intros slot Hslot. destruct (H6 slot Hslot) as [Hnone Hlt]. split; [|lia].
    rewrite (lookup_insert_ne (handles w)) by lia. exact Hnone.
Qed.

(** Ending an open dialog whose handle is live calls through the handle,
    releases it, and drops the handler. *)
Lemma complete_live (k : nat) (c : Completion) (a : Answer) (w : World)
    (slot f : nat) :
  pending w !! k = Some c ->
  takes c a = true ->
  handle_of c = Some slot ->
  handles w !! slot = Some f ->
  exists v,
    complete k a w
    = (tt, {| handles := delete slot (handles w);
              next_handle := next_handle w;
              pending := delete k (pending w);
              trace := trace w ++ [Called slot f v] |}).
Proof.
  intros Hk Htakes Hslot Hlive. unfold complete. rewrite Hk.
  destruct c as [cb|cb|cb], a as [code|result paths|result path];
    try discriminate Htakes; cbn [handle_of] in Hslot; subst cb;
    cbn [Run]; unfold CallV8Function2, CallV8Function, bind, DCHECK, Call, Dispose,
      log, ret;
    try destruct result;
    cbn [IsEmpty negb pending handles next_handle trace]; rewrite Hlive;
    eexists; reflexivity.
Qed.

Lemma sound_complete (k : nat) (c : Completion) (a : Answer) (w : World) :
  sound w ->
  pending w !! k = Some c ->
  takes c a = true ->
  sound (snd (complete k a w)).
Proof.
  intros [H1 H2 H3 H4 H5 H6 H7] Hk Htakes.
  destruct (Forall_lookup_1 _ _ _ _ H1 Hk) as [slot Hslot].
  assert (Hheld : (handle_of <$> pending w) !! k = Some (Some slot))
    by (rewrite list_lookup_fmap, Hk; cbn; rewrite Hslot; reflexivity).
  assert (Hin : Some slot ∈ handle_of <$> pending w)
    by (eapply list_elem_of_lookup_2; exact Hheld).
  destruct (proj1 (H3 slot) Hin) as [f Hlive].
  destruct (complete_live k c a w slot f Hk Htakes Hslot Hlive) as [v ->].
  cbn [snd].
  split; cbn [pending handles next_handle trace];
    rewrite ?fired_app, ?faults_app; cbn [fired faults omap]; rewrite ?app_nil_r;
    try assumption.
  - apply Forall_delete. exact H1.
  - rewrite list_fmap_delete. exact (sublist_NoDup _ _ H2 (sublist_delete _ _)).
  - intros slot'. rewrite list_fmap_delete.
    rewrite (elem_of_delete_NoDup _ _ _ _ Hheld H2).
    rewrite (lookup_delete_is_Some (handles w)), H3. split.
    + intros [H Hne]. split; [congruence | exact H].
    + intros [Hne H]. split; [exact H | congruence].
  - intros slot'. rewrite (lookup_delete_is_Some (handles w)). intros [_ H].
    apply H4. exact H.
  - apply NoDup_app. split; [exact H5|]. split; [|apply NoDup_singleton].
    intros x Hx Hin'. apply list_elem_of_singleton in Hin' as ->.
    destruct (H6 slot Hx) as [Hnone _]. congruence.
  - intros x [Hx|Hx%list_elem_of_singleton]%elem_of_app.
    + destruct (H6 x Hx) as [Hnone Hlt]. split; [|exact Hlt].
      apply (lookup_delete_None (handles w)). right. exact Hnone.
    + subst x. split; [apply lookup_delete_eq|]. apply H4. eexists; exact Hlive.
Qed.

Lemma sound_entry (op : Operation) (native : NativeLayer) (args : Arguments) (w : World) :
  sound w -> sound (snd (entry op native args w)).
Proof.
  intros Hw. destruct (passes op args) eqn:Hpass.
  - destruct (at_ args (callback_index op)) eqn:Hcb;
      try (rewrite entry_sync by (try rewrite Hcb; trivial);
           apply sound_answered, Hw).
    rewrite (entry_async _ _ _ _ _ _ Hpass Hcb). apply sound_scheduled, Hw.
  - rewrite entry_rejects by exact Hpass. exact Hw.
Qed.

(** Every world of a run is sound. *)
Lemma reachable_sound (native : NativeLayer) (w : World) :
  reachable native w -> sound w.
Proof.
  induction 1 as [|w w' _ IH Hstep]; [apply sound_empty|].
  destruct Hstep as [op args w|k c a w Hk Htakes].
  - apply sound_entry, IH.
  - eapply sound_complete; eassumption.
Qed.

(** ** The claims *)

(** C1. Mode equivalence.  For every operation and every argument list that
    passes validation, the value the call returns when the callback position
    holds no function equals the value the callback is called with when that
    position holds a function, the other arguments and the answer of the
    native layer being the same. *)
Theorem mode_equivalence (op : Operation) (native : NativeLayer) (args : Arguments)
    (x : Value) (f : nat) (text : ustring) (a : Answer) (w : World) :
  passes op args = true ->
  IsFunction x = false ->
  answer native (native_arguments op args) = a ->
  exists v,
    fst (entry op native (with_arg args (callback_index op) x) w) = Returned v /\
    calls (trace (snd (complete (length (pending w)) a
      (snd (entry op native (with_arg args (callback_index op) (Function f text)) w)))))
    = calls (trace w) ++ [(f, v)].
Proof.
  intros Hpass Hx Ha.
  exists (delivered_value a). split.
  - rewrite entry_sync.
    + cbn [fst]. rewrite native_arguments_with_callback, Ha. reflexivity.
    + rewrite passes_with_callback. exact Hpass.
    + rewrite at_with_arg_eq. exact Hx.
  - rewrite (entry_async _ _ _ _ f text).
    + cbn [snd]. rewrite complete_scheduled.
      * cbn [snd]. apply calls_completed.
      * subst a. apply fits_answer.
    + rewrite passes_with_callback. exact Hpass.
    + apply at_with_arg_eq.
Qed.

Lemma mode_equivalence_witness :
  exists v,
    fst (entry showSaveDialog sample_native
           (with_arg save_dialog_args (callback_index showSaveDialog) Undefined)
           empty_world) = Returned v /\
    calls (trace (snd (complete 0
      (Saved true {| path_ := utf8_encode (of_ascii "/tmp/x/out.txt") |})
      (snd (entry showSaveDialog sample_native
              (with_arg save_dialog_args (callback_index showSaveDialog) sample_cb)
              empty_world)))))
    = calls (trace empty_world) ++ [(7%nat, v)].
Proof.
  apply (mode_equivalence showSaveDialog sample_native save_dialog_args Undefined 7
           (of_ascii "function(r){}") _ empty_world); reflexivity.
Defined.

(** C2. One terminal outcome.  A call that passes validation ends in exactly
    one way.  Without a callback it returns a value, calls nothing, keeps no
    handle and hands no handler to the native layer.  With a callback
    nothing is called until the native layer ends the dialog; then the
    callback is called once, through the handle made for this call, the
    handle is released, and the native layer is left with the handlers it
    held before the call: none for this one.  And in every run of calls and
    completions no handle is called through twice, every handle called
    through is released and carried by no handler, and no fault occurs. *)
Theorem one_terminal_outcome (op : Operation) (native : NativeLayer) (args : Arguments)
    (w : World) :
  passes op args = true ->
  (IsFunction (at_ args (callback_index op)) = false ->
     (exists v, fst (entry op native args w) = Returned v) /\
     calls (trace (snd (entry op native args w))) = calls (trace w) /\
     handles (snd (entry op native args w)) = handles w /\
     pending (snd (entry op native args w)) = pending w)
  /\
  (forall f text a,
     at_ args (callback_index op) = Function f text ->
     fits op a = true ->
     calls (trace (snd (entry op native args w))) = calls (trace w) /\
     handles (snd (entry op native args w)) !! next_handle w = Some f /\
     pending (snd (entry op native args w))
     = pending w ++ [bound op (Some (next_handle w))] /\
     (exists v,
        trace (snd (complete (length (pending w)) a (snd (entry op native args w))))
        = trace (snd (entry op native args w)) ++ [Called (next_handle w) f v]) /\
     handles (snd (complete (length (pending w)) a (snd (entry op native args w))))
       !! next_handle w = None /\
     pending (snd (complete (length (pending w)) a (snd (entry op native args w))))
     = pending w)
  /\
  (forall w' : World,
     reachable native w' ->
     NoDup (fired (trace w')) /\
     (forall slot, slot ∈ fired (trace w') ->
        handles w' !! slot = None /\ Some slot ∉ handle_of <$> pending w') /\
     faults (trace w') = []).
Proof.
  intros Hpass. split; [|split].
  - intros Hcb. rewrite entry_sync by assumption. cbn [fst snd].
    split; [eexists; reflexivity|].
    split; [apply calls_answered|].
    split; reflexivity.
  - intros f text a Hcb Hfit. rewrite (entry_async _ _ _ _ f text) by assumption.
    cbn [snd]. rewrite complete_scheduled by assumption. cbn [snd].
    split; [apply calls_scheduled|].
    split; [unfold scheduled; cbn [handles]; apply (lookup_insert_eq (handles w))|].
    split; [reflexivity|].
    split; [eexists; reflexivity|].
    split; [|reflexivity].
    unfold completed. cbn [handles]. apply lookup_delete_eq.
  - intros w' Hrun. destruct (reachable_sound native w' Hrun) as [_ _ H3 _ H5 H6 H7].
    split; [exact H5|]. split; [|exact H7].
    intros slot Hslot. destruct (H6 slot Hslot) as [Hnone _].
    split; [exact Hnone|].
    intros Hin. apply H3 in Hin. rewrite Hnone in Hin. destruct (is_Some_None Hin).
Qed.

Lemma one_terminal_outcome_witness :
  (exists v, fst (entry showMessageBox sample_native message_box_args empty_world)
             = Returned v) /\
  (exists v,
     trace (snd (complete 0 (Opened false [])
                   (snd (entry showOpenDialog sample_native open_dialog_args
                           empty_world))))
     = trace (snd (entry showOpenDialog sample_native open_dialog_args empty_world))
       ++ [Called 0 7 v]) /\
  NoDup (fired (trace (snd (complete 0 (Opened false [])
                              (snd (entry showOpenDialog sample_native
                                      open_dialog_args empty_world)))))).
Proof.
  split; [|split].
  - apply (one_terminal_outcome showMessageBox sample_native message_box_args
             empty_world); reflexivity.
  - destruct (proj1 (proj2 (one_terminal_outcome showOpenDialog sample_native
                              open_dialog_args empty_world eq_refl))
                    7%nat (of_ascii "function(r){}") (Opened false []) eq_refl eq_refl)
      as (_ & _ & _ & Hcall & _).
    exact Hcall.
  - apply (proj2 (proj2 (one_terminal_outcome showOpenDialog sample_native
                           open_dialog_args empty_world eq_refl))).
    eapply reachable_step.
    + eapply reachable_step; [apply reachable_empty|].
      apply (step_call sample_native showOpenDialog open_dialog_args).
    + eapply (step_complete sample_native 0
                (Bind_CallV8Function2_paths (Some 0%nat)) (Opened false []));
        reflexivity.
Defined.

(** C3. Shape errors.  If some tested position holds a value that is not of
    the shape tested there, the call ends with the type error and the world
    is as it was: no dialog was shown, no handle was allocated, nothing was
    called. *)
Theorem shape_error_has_no_effect (op : Operation) (native : NativeLayer)
    (args : Arguments) (w : World) (i : nat) (shape : Value -> bool) :
  declared op !! i = Some shape ->
  shape (at_ args i) = false ->
  entry op native args w = (TypeError "Bad argument", w).
Proof.
  intros Hd Hs. apply entry_rejects. apply passes_false_shape. eauto.
Qed.

(** A number where the button labels belong. *)
Lemma shape_error_has_no_effect_witness :
  entry showMessageBox sample_native
    [Number 0; Number 1; String (of_ascii "T"); String (of_ascii "M");
     String (of_ascii "D"); Undefined; sample_cb]
    empty_world
  = (TypeError "Bad argument", empty_world).
Proof.
  apply (shape_error_has_no_effect showMessageBox sample_native _ empty_world 1 IsArray);
    reflexivity.
Defined.

(** C4. Coercions that degrade.  Turning a value into a window or into a
    callback handle is defined for every value: the window is present exactly
    when the value is an object carrying a native window, and a value that is
    not a function gives the empty handle without touching the world.  So a
    call whose tested positions pass never ends in an error, whatever the
    window and callback positions hold, and without a function in the
    callback position it takes the synchronous path. *)
Theorem coercion_degrades (v : Value) (op : Operation) (native : NativeLayer)
    (args : Arguments) (w : World) :
  (forall n, (FromV8Value v : option NativeWindow) = Some n <->
             exists text, v = Object (Some {| window := Some n |}) text) /\
  (IsFunction v = false -> (FromV8Value v : M Persistent) w = (None, w)) /\
  (passes op args = true ->
   (exists r, fst (entry op native args w) = Returned r) /\
   parent_of (native_arguments op args)
   = (FromV8Value (at_ args (window_index op)) : option NativeWindow) /\
   (IsFunction (at_ args (callback_index op)) = false ->
    snd (entry op native args w) = answered op args w)).
Proof.
  split; [intros n; apply to_NativeWindow_carried|].
  split; [apply to_Persistent_not_function|].
  intros Hpass. split; [|split].
  - destruct (at_ args (callback_index op)) eqn:Hcb;
      try (rewrite entry_sync by (try rewrite Hcb; trivial); eexists; reflexivity).
    rewrite (entry_async _ _ _ _ _ _ Hpass Hcb). eexists; reflexivity.
  - destruct op; reflexivity.
  - intros Hcb. rewrite entry_sync by assumption. reflexivity.
Qed.

Lemma coercion_degrades_witness :
  (FromV8Value (Number 3) : M Persistent) empty_world = (None, empty_world) /\
  snd (entry showSaveDialog sample_native
         [String (of_ascii "Save"); String (of_ascii "/tmp/x"); Number 3; Number 3]
         empty_world)
  = answered showSaveDialog
      [String (of_ascii "Save"); String (of_ascii "/tmp/x"); Number 3; Number 3]
      empty_world.
Proof.
  destruct (coercion_degrades (Number 3) showSaveDialog sample_native
              [String (of_ascii "Save"); String (of_ascii "/tmp/x"); Number 3; Number 3]
              empty_world) as (_ & Hhandle & Hcall).
  split.
  - apply Hhandle. reflexivity.
  - apply Hcall; reflexivity.
Defined.

(** C5. The asynchronous path returns at once.  With a function in the
    callback position, an accepted call returns [undefined] while the dialog
    is still open: its handler is held by the native layer and the callback
    has not been called. *)
Theorem async_returns_undefined (op : Operation) (native : NativeLayer)
    (args : Arguments) (f : nat) (text : ustring) (w : World) :
  passes op args = true ->
  at_ args (callback_index op) = Function f text ->
  fst (entry op native args w) = Returned Undefined /\
  pending (snd (entry op native args w))
  = pending w ++ [bound op (Some (next_handle w))] /\
  calls (trace (snd (entry op native args w))) = calls (trace w).
Proof.
  intros Hpass Hcb. rewrite (entry_async _ _ _ _ f text) by assumption.
  cbn [fst snd]. split; [reflexivity|]. split; [reflexivity|].
  apply calls_scheduled.
Qed.

Lemma async_returns_undefined_witness :
  fst (entry showOpenDialog sample_native open_dialog_args empty_world)
  = Returned Undefined.
Proof.
  apply (async_returns_undefined showOpenDialog sample_native open_dialog_args 7
           (of_ascii "function(r){}") empty_world); reflexivity.
Defined.

(** C6. Cancellation on the synchronous path.  For the open and the save
    dialog, when no function is in the callback position and the native
    primitive reports no selection, the call returns [undefined]; it does not
    end in an error. *)
Theorem cancelled_sync_returns_undefined (op : Operation) (native : NativeLayer)
    (args : Arguments) (w : World) :
  op <> showMessageBox ->
  passes op args = true ->
  IsFunction (at_ args (callback_index op)) = false ->
  selected (answer native (native_arguments op args)) = false ->
  fst (entry op native args w) = Returned Undefined.
Proof.
  intros Hop Hpass Hcb Hsel. rewrite entry_sync by assumption. cbn [fst].
  destruct (answer native (native_arguments op args)) as [code|[] paths|[] path];
    try discriminate Hsel; reflexivity.
Qed.

Lemma cancelled_sync_returns_undefined_witness :
  fst (entry showSaveDialog dismissing_native save_dialog_args empty_world)
  = Returned Undefined.
Proof.
  apply cancelled_sync_returns_undefined; [discriminate | reflexivity ..].
Defined.

(** C7. What the callback receives.  For the open and the save dialog on the
    asynchronous path, when the native layer ends the dialog the callback is
    called exactly once: with [undefined] when the success flag is false;
    when it is true, with the array holding the string of each path, in
    order, for the open dialog, and with the string of the path for the save
    dialog. *)
Theorem async_completion_value (op : Operation) (native : NativeLayer)
    (args : Arguments) (f : nat) (text : ustring) (w : World) :
  op <> showMessageBox ->
  passes op args = true ->
  at_ args (callback_index op) = Function f text ->
  (forall a, fits op a = true -> selected a = false ->
     calls (trace (snd (complete (length (pending w)) a (snd (entry op native args w)))))
     = calls (trace w) ++ [(f, Undefined)]) /\
  (forall paths, op = showOpenDialog ->
     calls (trace (snd (complete (length (pending w)) (Opened true paths)
                          (snd (entry op native args w)))))
     = calls (trace w)
       ++ [(f, Array (map (fun p => String (utf8_decode (path_ p))) paths))]) /\
  (forall path, op = showSaveDialog ->
     calls (trace (snd (complete (length (pending w)) (Saved true path)
                          (snd (entry op native args w)))))
     = calls (trace w) ++ [(f, String (utf8_decode (path_ path)))]).
Proof.
  intros Hop Hpass Hcb.
  rewrite (entry_async _ _ _ _ f text) by assumption. cbn [snd].
  split; [|split].
  - intros a Hfit Hsel. rewrite complete_scheduled by assumption. cbn [snd].
    rewrite calls_completed.
    destruct a as [code|[] paths|[] path]; try discriminate Hsel; reflexivity.
  - intros paths ->. rewrite complete_scheduled by trivial. cbn [snd].
    rewrite calls_completed. reflexivity.
  - intros path ->. rewrite complete_scheduled by trivial. cbn [snd].
    rewrite calls_completed. reflexivity.
Qed.

Lemma async_completion_value_witness :
  calls (trace (snd (complete 0 (Opened false [])
                       (snd (entry showOpenDialog sample_native open_dialog_args
                               empty_world)))))
  = calls (trace empty_world) ++ [(7%nat, Undefined)] /\
  calls (trace (snd (complete 0
                       (Opened true [ {| path_ := utf8_encode (of_ascii "/a") |};
                                      {| path_ := utf8_encode (of_ascii "/b") |} ])
                       (snd (entry showOpenDialog sample_native open_dialog_args
                               empty_world)))))
  = calls (trace empty_world)
    ++ [(7%nat, Array [String (of_ascii "/a"); String (of_ascii "/b")])].
Proof.
  destruct (async_completion_value showOpenDialog sample_native open_dialog_args 7
              (of_ascii "function(r){}") empty_world
              ltac:(discriminate) eq_refl eq_refl) as (Hcancel & Hopen & _).
  split.
  - apply Hcancel; reflexivity.
  - apply (Hopen [ {| path_ := utf8_encode (of_ascii "/a") |};
                   {| path_ := utf8_encode (of_ascii "/b") |} ] eq_refl).
Defined.

(** C9. The message box on the synchronous path returns the very integer the
    native primitive produced, whether it indexes a button or is the code of
    a dismissal. *)
Theorem message_box_returns_native_code (native : NativeLayer) (args : Arguments)
    (code : Z) (w : World) :
  passes showMessageBox args = true ->
  IsFunction (at_ args (callback_index showMessageBox)) = false ->
  answer native (native_arguments showMessageBox args) = Chosen code ->
  fst (ShowMessageBox native args w) = Returned (Number code).
Proof.
  intros Hpass Hcb Ha.
  change (ShowMessageBox native args w) with (entry showMessageBox native args w).
  rewrite entry_sync by assumption. cbn [fst]. rewrite Ha. reflexivity.
Qed.

Lemma message_box_returns_native_code_witness :
  fst (ShowMessageBox sample_native message_box_args empty_world) = Returned (Number 0) /\
  fst (ShowMessageBox dismissing_native message_box_args empty_world)
  = Returned (Number (-1)).
Proof.
  split; apply message_box_returns_native_code; reflexivity.
Defined.

(** C8, as stated, fails: a string holding a NUL is cut at the NUL on its way
    to the native path, so it does not come back whole. *)
Lemma path_round_trip_cut_at_nul :
  ToV8Value (FromV8Value (String [97; 0; 98]) : FilePath) = String [97] /\
  ToV8Value (FromV8Value (String [97; 0; 98]) : FilePath) <> String [97; 0; 98].
Proof. split; [reflexivity | discriminate]. Qed.

(** C8, amended.  A well-formed scripting string without a NUL, taken to a
    native path and back to a scripting string, comes back unit for unit;
    followed by a NUL and anything else, it comes back without the NUL and
    what followed. *)
Theorem path_round_trip (s rest : ustring) :
  well_formed s = true ->
  nul_free s = true ->
  ToV8Value (FromV8Value (String s) : FilePath) = String s /\
  ToV8Value (FromV8Value (String (s ++ 0 :: rest)) : FilePath) = String s.
Proof.
  intros Hwf Hnul. split; [|apply round_trip_prefix; assumption].
  unfold FromV8Value, to_FilePath, ToV8Value, FilePath_ToV8, String_New,
    AsUTF8Unsafe, FromUTF8Unsafe. cbn [path_].
  rewrite to_std_string_nul_free by exact Hnul. cbn [ToString].
  rewrite decode_encode by exact Hwf. reflexivity.
Qed.

Lemma path_round_trip_witness :
  ToV8Value (FromV8Value (String (of_ascii "/tmp/x")) : FilePath)
  = String (of_ascii "/tmp/x") /\
  ToV8Value (FromV8Value (String (of_ascii "/tmp/x" ++ 0 :: of_ascii ".txt")) : FilePath)
  = String (of_ascii "/tmp/x").
Proof. apply path_round_trip; reflexivity. Defined.

(** Every accepted call shows exactly the request built from its
    arguments. *)
Lemma shown_entry (op : Operation) (native : NativeLayer) (args : Arguments) (w : World) :
  passes op args = true ->
  (exists r, fst (entry op native args w) = Returned r) /\
  shown (trace (snd (entry op native args w)))
  = shown (trace w) ++ [native_arguments op args].
Proof.
  intros Hpass.
  destruct (at_ args (callback_index op)) eqn:Hcb;
    try (rewrite entry_sync by (try rewrite Hcb; trivial);
         split; [eexists; reflexivity|];
         cbn [snd]; unfold answered; cbn [trace]; rewrite shown_app; reflexivity).
  rewrite (entry_async _ _ _ _ _ _ Hpass Hcb).
  split; [eexists; reflexivity|].
  cbn [snd]. unfold scheduled. cbn [trace]. rewrite shown_app. reflexivity.
Qed.

(** C10, as stated, fails: a label holding a NUL reaches the native
    primitive cut at the NUL, not as the UTF-8 form of its text. *)
Lemma button_label_cut_at_nul :
  map buttons_of (shown (trace (snd (ShowMessageBox sample_native nul_label_args
                                       empty_world))))
  = [[[97]]] /\
  map buttons_of (shown (trace (snd (ShowMessageBox sample_native nul_label_args
                                       empty_world))))
  <> [map (fun v => utf8_encode (ToString v)) (elements (at_ nul_label_args 1))].
Proof. split; [reflexivity | discriminate]. Qed.

(** C10, amended.  The validator asks of the button labels only that they
    come in an array.  Whatever the elements are, the call is accepted, and
    each element reaches the native primitive as the UTF-8 bytes of its text
    up to the first NUL: the whole text when it holds no NUL. *)
Theorem buttons_not_shape_checked (native : NativeLayer) (args : Arguments)
    (elems : list Value) (w : World) :
  IsNumber (at_ args 0) = true ->
  at_ args 1 = Array elems ->
  IsString (at_ args 2) = true ->
  IsString (at_ args 3) = true ->
  IsString (at_ args 4) = true ->
  passes showMessageBox args = true /\
  (exists r, fst (ShowMessageBox native args w) = Returned r) /\
  map buttons_of (shown (trace (snd (ShowMessageBox native args w))))
  = map buttons_of (shown (trace w))
    ++ [map (fun v => string_of_c_str (utf8_encode (ToString v) ++ [0])) elems] /\
  (forall v, nul_free (ToString v) = true ->
             string_of_c_str (utf8_encode (ToString v) ++ [0]) = utf8_encode (ToString v)) /\
  (forall v p rest, ToString v = p ++ 0 :: rest -> nul_free p = true ->
             string_of_c_str (utf8_encode (ToString v) ++ [0]) = utf8_encode p).
Proof.
  intros H0 H1 H2 H3 H4.
  assert (Hpass : passes showMessageBox args = true).
  { unfold passes. simpl. rewrite H0, H1, H2, H3, H4. reflexivity. }
  split; [exact Hpass|].
  destruct (shown_entry showMessageBox native args w Hpass) as [Hret Hshown].
  split; [exact Hret|]. split.
  - change (ShowMessageBox native args w) with (entry showMessageBox native args w).
    rewrite Hshown, map_app. cbn [map native_arguments buttons_of].
    rewrite H1. reflexivity.
  - split.
    + intros v Hv. apply string_of_c_str_terminated, encode_nonzero, Hv.
    + intros v p rest -> Hp. apply c_str_prefix, Hp.
Qed.

Lemma buttons_not_shape_checked_witness :
  map buttons_of (shown (trace (snd (ShowMessageBox sample_native mixed_label_args
                                       empty_world))))
  = [[of_ascii "1"; of_ascii "true"; of_ascii "null"; of_ascii "OK"]].
Proof.
  destruct (buttons_not_shape_checked sample_native mixed_label_args
              [Number 1; Boolean true; Null; String (of_ascii "OK")] empty_world
              eq_refl eq_refl eq_refl eq_refl eq_refl) as (_ & _ & Hbuttons & _).
  rewrite Hbuttons. reflexivity.
Defined.

(** ** The examples of the specification *)

Example encode_ascii : utf8_encode (of_ascii "OK") = [79; 75].
Proof. reflexivity. Qed.

Example encode_e_acute : utf8_encode [0xE9] = [0xC3; 0xA9].
Proof. reflexivity. Qed.

Example encode_pair : utf8_encode [0xD83D; 0xDE00] = [0xF0; 0x9F; 0x98; 0x80].
Proof. reflexivity. Qed.

Example decode_pair :
  utf8_decode [0xF0; 0x9F; 0x98; 0x80; 0x41] = [0xD83D; 0xDE00; 0x41].
Proof. reflexivity. Qed.

Example decode_stray : utf8_decode [0x80; 0x41] = [kBadChar; 0x41].
Proof. reflexivity. Qed.

Example ToString_mixed :
  ToString (Array [Number 1; Null; Boolean true; String (of_ascii "x")])
  = of_ascii "1,,true,x".
Proof. reflexivity. Qed.

Example ToString_negative : ToString (Number (-12)) = of_ascii "-12".
Proof. reflexivity. Qed.

(** [showMessageBox(0, ["OK","Cancel"], "T", "M", "D")] with a native layer
    that answers 0 returns 0. *)
Example message_box_returns_zero :
  fst (ShowMessageBox sample_native message_box_args empty_world) = Returned (Number 0).
Proof. reflexivity. Qed.

(** [showOpenDialog("Open", "", 0, undefined, cb)] with a native layer that
    reports cancellation returns [undefined] and calls [cb] once with
    [undefined]; afterwards its handle is gone. *)
Example open_dialog_cancelled :
  let r := ShowOpenDialog sample_native open_dialog_args empty_world in
  let w := snd (complete 0 (Opened false []) (snd r)) in
  fst r = Returned Undefined /\
  calls (trace (snd r)) = [] /\
  calls (trace w) = [(7%nat, Undefined)] /\
  handles w = ∅ /\
  pending w = [].
Proof. repeat split; vm_compute; reflexivity. Qed.

(** [showSaveDialog("Save", "/tmp/x")] with a native layer that answers
    [/tmp/x/out.txt] returns that string. *)
Example save_dialog_returns_path :
  fst (ShowSaveDialog sample_native save_dialog_args empty_world)
  = Returned (String (of_ascii "/tmp/x/out.txt")).
Proof. reflexivity. Qed.

(** A number in place of the button labels. *)
Example message_box_rejects_number :
  ShowMessageBox sample_native
    [Number 0; Number 1; String (of_ascii "T"); String (of_ascii "M");
     String (of_ascii "D")] empty_world
  = (TypeError "Bad argument", empty_world).
Proof. reflexivity. Qed.

(** * Further properties of the bridge *)

(** ** Argument lists *)

Lemma at_past_end (args : Arguments) (i : nat) :
  (length args <= i)%nat -> at_ args i = Undefined.
Proof.
  intros H. unfold at_, Arguments in *. rewrite lookup_ge_None_2 by exact H.
  reflexivity.
Qed.

Lemma at_app_l (args extra : Arguments) (i : nat) :
  (i < length args)%nat -> at_ (args ++ extra) i = at_ args i.
Proof.
  intros H. unfold at_, Arguments in *. rewrite lookup_app_l by exact H.
  reflexivity.
Qed.

(** An entry point reads the positions up to the callback, and no other. *)
Lemma entry_ext (op : Operation) (native : NativeLayer) (args args' : Arguments) :
  (forall i, (i <= callback_index op)%nat -> at_ args i = at_ args' i) ->
  entry op native args = entry op native args'.
Proof.
  intros H. destruct op; unfold callback_index in H; simpl in H; unfold entry;
    [unfold ShowMessageBox | unfold ShowOpenDialog | unfold ShowSaveDialog];
    rewrite ?(H 0%nat), ?(H 1%nat), ?(H 2%nat), ?(H 3%nat), ?(H 4%nat),
      ?(H 5%nat), ?(H 6%nat) by lia;
    reflexivity.
Qed.

(** X1.  [ToV8Value] of a list of paths: the index loop leaves an array with
    one element per path, in the order of the paths, each the string of its
    path; no hole of the fresh array is left. *)
Theorem paths_array_elements (paths : list FilePath) :
  exists elems,
    ToV8Value paths = Array elems /\
    length elems = length paths /\
    (forall i p, paths !! i = Some p ->
                 elems !! i = Some (String (utf8_decode (path_ p)))) /\
    Forall (fun v => IsString v = true) elems.
Proof.
  exists (map (fun p => String (utf8_decode (path_ p))) paths).
  split; [apply ToV8Value_paths|].
  split; [apply length_map|].
  split.
  - intros i p Hp. change (map ?f paths) with (f <$> paths).
    rewrite list_lookup_fmap, Hp. reflexivity.
  - apply Forall_forall. intros v Hv.
    change (map ?f paths) with (f <$> paths) in Hv.
    apply list_elem_of_fmap in Hv as (p & -> & _). reflexivity.
Qed.

(** X2.  A call with fewer arguments than tested positions ends with the
    type error and changes nothing: the first missing position reads as
    [undefined], which has none of the tested shapes. *)
Theorem missing_arguments_rejected (op : Operation) (native : NativeLayer)
    (args : Arguments) (w : World) :
  (length args < length (declared op))%nat ->
  entry op native args w = (TypeError "Bad argument", w).
Proof.
  intros Hlen. apply entry_rejects, passes_false_shape.
  destruct (lookup_lt_is_Some_2 (declared op) (length args) Hlen) as [shape Hshape].
  exists (length args), shape. split; [exact Hshape|].
  rewrite at_past_end by lia.
  apply list_elem_of_lookup_2 in Hshape.
  destruct op; simpl in Hshape;
    repeat (apply elem_of_cons in Hshape as [->|Hshape]; [reflexivity|]);
    inversion Hshape.
Qed.

Lemma missing_arguments_rejected_witness :
  entry showOpenDialog sample_native [String (of_ascii "Open"); String []] empty_world
  = (TypeError "Bad argument", empty_world) /\
  entry showSaveDialog sample_native [] empty_world
  = (TypeError "Bad argument", empty_world).
Proof.
  split; apply missing_arguments_rejected; cbn; lia.
Defined.

(** X3.  Arguments after the callback position are never read: a call with
    more arguments behaves as the call without them. *)
Theorem trailing_arguments_ignored (op : Operation) (native : NativeLayer)
    (args extra : Arguments) (w : World) :
  (callback_index op < length args)%nat ->
  entry op native (args ++ extra) w = entry op native args w.
Proof.
  intros Hlen. rewrite (entry_ext op native (args ++ extra) args); [reflexivity|].
  intros i Hi. apply at_app_l. lia.
Qed.

Lemma trailing_arguments_ignored_witness :
  entry showSaveDialog sample_native
    ([String (of_ascii "Save"); String (of_ascii "/tmp/x"); Undefined; sample_cb]
     ++ [Number 5; Null]) empty_world
  = entry showSaveDialog sample_native
      [String (of_ascii "Save"); String (of_ascii "/tmp/x"); Undefined; sample_cb]
      empty_world.
Proof.
  apply (trailing_arguments_ignored showSaveDialog sample_native
           [String (of_ascii "Save"); String (of_ascii "/tmp/x"); Undefined; sample_cb]
           [Number 5; Null]).
  unfold callback_index. cbn. lia.
Defined.

(** X4.  A call that stops before the callback position takes the
    synchronous path: the positions it leaves out read as [undefined], so no
    window is attached and no handle is made. *)
Theorem short_call_is_synchronous (op : Operation) (native : NativeLayer)
    (args : Arguments) (w : World) :
  passes op args = true ->
  (length args <= window_index op)%nat ->
  entry op native args w
  = (Returned (delivered_value (answer native (native_arguments op args))),
     answered op args w) /\
  parent_of (native_arguments op args) = None.
Proof.
  intros Hpass Hlen. split.
  - apply entry_sync; [exact Hpass|].
    rewrite at_past_end by (unfold callback_index, window_index in *; lia).
    reflexivity.
  - assert (Hw : at_ args (window_index op) = Undefined) by (apply at_past_end; lia).
    destruct op; cbn [native_arguments parent_of];
      unfold window_index in Hw; simpl in Hw; rewrite Hw; reflexivity.
Qed.

Lemma short_call_is_synchronous_witness :
  entry showSaveDialog sample_native save_dialog_args empty_world
  = (Returned (delivered_value
                 (answer sample_native (native_arguments showSaveDialog save_dialog_args))),
     answered showSaveDialog save_dialog_args empty_world) /\
  parent_of (native_arguments showSaveDialog save_dialog_args) = None.
Proof.
  apply short_call_is_synchronous; [reflexivity | unfold window_index; cbn; lia].
Defined.

(** ** What reaches the native layer, and what comes back *)







(** X6.  The text arguments of the open dialog.  A title and a default path
    without a NUL reach the native primitive as the UTF-8 bytes of their
    units; the default path is handed over as exactly those bytes, with no
    normalisation. *)
Theorem text_forwarded (native : NativeLayer) (args : Arguments)
    (title path : ustring) (w : World) :
  passes showOpenDialog args = true ->
  at_ args 0 = String title ->
  at_ args 1 = String path ->
  nul_free title = true ->
  nul_free path = true ->
  exists parent properties,
    shown (trace (snd (ShowOpenDialog native args w)))
    = shown (trace w)
      ++ [OpenDialog parent (utf8_encode title) {| path_ := utf8_encode path |}
            properties].
Proof.
  intros Hpass Ht Hp Hnt Hnp.
  destruct (shown_entry showOpenDialog native args w Hpass) as [_ Hshown].
  cbn [entry native_arguments] in Hshown. rewrite Ht, Hp in Hshown.
  unfold FromV8Value at 3, to_FilePath, FromUTF8Unsafe in Hshown.
  unfold FromV8Value at 2 in Hshown.
  rewrite !to_std_string_nul_free in Hshown by assumption.
  cbn [ToString] in Hshown.
  do 2 eexists. exact Hshown.
Qed.

Lemma text_forwarded_witness :
  exists parent properties,
    shown (trace (snd (ShowOpenDialog sample_native
                         [String (of_ascii "Open"); String [0xE9]; Number 0]
                         empty_world)))
    = shown (trace empty_world)
      ++ [OpenDialog parent (utf8_encode (of_ascii "Open"))
            {| path_ := utf8_encode [0xE9] |} properties].
Proof.
  apply (text_forwarded sample_native
           [String (of_ascii "Open"); String [0xE9]; Number 0]); reflexivity.
Defined.

(** X7.  A selection on the synchronous path.  When the native primitive
    reports a selection whose paths are the UTF-8 bytes of well-formed
    texts, the open dialog returns the array of those texts, in order, an
    empty selection giving an empty array and not [undefined]; the save
    dialog returns the text of its path. *)
Theorem selection_returned (native : NativeLayer) (args : Arguments)
    (texts : list ustring) (text : ustring) (w : World) :
  Forall (fun s => well_formed s = true) texts ->
  well_formed text = true ->
  (passes showOpenDialog args = true ->
   IsFunction (at_ args 4) = false ->
   answer native (native_arguments showOpenDialog args)
   = Opened true (map (fun s => FromUTF8Unsafe (utf8_encode s)) texts) ->
   fst (ShowOpenDialog native args w) = Returned (Array (map String texts))) /\
  (passes showSaveDialog args = true ->
   IsFunction (at_ args 3) = false ->
   answer native (native_arguments showSaveDialog args)
   = Saved true (FromUTF8Unsafe (utf8_encode text)) ->
   fst (ShowSaveDialog native args w) = Returned (String text)).
Proof.
  intros Hwfs Hwf. split; intros Hpass Hcb Ha.
  - change (ShowOpenDialog native args w) with (entry showOpenDialog native args w).
    rewrite entry_sync by assumption. cbn [fst]. rewrite Ha. cbn [delivered_value].
    do 2 f_equal. rewrite map_map. apply map_ext_in. intros s Hs.
    cbn [FromUTF8Unsafe path_]. f_equal. apply decode_encode.
    rewrite Forall_forall in Hwfs. apply Hwfs, list_elem_of_In, Hs.
  - change (ShowSaveDialog native args w) with (entry showSaveDialog native args w).
    rewrite entry_sync by assumption. cbn [fst]. rewrite Ha.
    cbn [delivered_value FromUTF8Unsafe path_]. rewrite decode_encode by exact Hwf.
    reflexivity.
Qed.

Lemma selection_returned_witness :
  fst (ShowSaveDialog sample_native save_dialog_args empty_world)
  = Returned (String (of_ascii "/tmp/x/out.txt")).
Proof.
  apply (proj2 (selection_returned sample_native save_dialog_args []
                  (of_ascii "/tmp/x/out.txt") empty_world
                  ltac:(constructor) eq_refl)); reflexivity.
Defined.

(** X8.  Paths fed back.  A native path that is the UTF-8 form of a
    well-formed text without a NUL, handed to the script as a string and
    handed back as a path argument, is the same path byte for byte. *)
Theorem path_fed_back (s : ustring) (path : FilePath) :
  well_formed s = true ->
  nul_free s = true ->
  path = FromUTF8Unsafe (utf8_encode s) ->
  (FromV8Value (ToV8Value path) : FilePath) = path.
Proof.
  intros Hwf Hnul ->.
  unfold ToV8Value, FilePath_ToV8, String_New, AsUTF8Unsafe, FromV8Value, to_FilePath.
  cbn [FromUTF8Unsafe path_]. rewrite decode_encode by exact Hwf.
  rewrite to_std_string_nul_free by exact Hnul. reflexivity.
Qed.

Lemma path_fed_back_witness :
  (FromV8Value (ToV8Value (FromUTF8Unsafe (utf8_encode (of_ascii "/tmp/x/out.txt"))))
   : FilePath)
  = FromUTF8Unsafe (utf8_encode (of_ascii "/tmp/x/out.txt")).
Proof.
  apply (path_fed_back (of_ascii "/tmp/x/out.txt")); reflexivity.
Defined.

(** X9.  One primitive per call.  A rejected call shows no dialog.  An
    accepted call shows exactly one, with the request built from its
    arguments: through the asynchronous primitive, with the handler bound to
    the fresh handle, when the callback position holds a function, and
    through the synchronous primitive otherwise. *)
Theorem one_primitive_per_call (op : Operation) (native : NativeLayer)
    (args : Arguments) (w : World) :
  trace (snd (entry op native args w))
  = if passes op args
    then trace w
         ++ [Shown (native_arguments op args)
               (if IsFunction (at_ args (callback_index op))
                then Some (bound op (Some (next_handle w)))
                else None)]
    else trace w.
Proof.
  destruct (passes op args) eqn:Hpass.
  - destruct (at_ args (callback_index op)) eqn:Hcb;
      try (rewrite entry_sync by (try rewrite Hcb; trivial); reflexivity).
    rewrite (entry_async _ _ _ _ _ _ Hpass Hcb). reflexivity.
  - rewrite entry_rejects by exact Hpass. reflexivity.
Qed.

(** ** Open dialogs and their handles *)


(** The handles the open dialogs carry. *)
Lemma held_slots (l : list Completion) :
  Forall (fun c => is_Some (handle_of c)) l ->
  handle_of <$> l = Some <$> omap handle_of l.
Proof.
  induction 1 as [|c l [slot Hc] _ IH]; [reflexivity|].
  cbn. rewrite Hc. cbn. f_equal. exact IH.
Qed.

(** X11.  Handles follow the open dialogs.  In every run, each handler the
    native layer holds carries a live handle, so the check at the head of
    [CallV8Function] holds whenever a handler runs; each live handle is
    carried by a handler the native layer holds; and there are as many live
    handles as open asynchronous dialogs, none when none is open. *)
Theorem handles_follow_open_dialogs (native : NativeLayer) (w : World) :
  reachable native w ->
  (forall c, c ∈ pending w ->
     exists slot f, handle_of c = Some slot /\ handles w !! slot = Some f) /\
  (forall slot, is_Some (handles w !! slot) ->
     exists c, c ∈ pending w /\ handle_of c = Some slot) /\
  size (handles w) = length (pending w) /\
  (pending w = [] -> handles w = ∅).
Proof.
  intros Hrun. destruct (reachable_sound native w Hrun) as [H1 H2 H3 _ _ _ _].
  assert (Hheld : forall c, c ∈ pending w ->
            exists slot f, handle_of c = Some slot /\ handles w !! slot = Some f).
  { intros c Hc. rewrite Forall_forall in H1. destruct (H1 c Hc) as [slot Hslot].
    destruct (proj1 (H3 slot)) as [f Hf].
    - rewrite <- Hslot. apply list_elem_of_fmap_2, Hc.
    - exists slot, f. split; assumption. }
  assert (Hlive : forall slot, is_Some (handles w !! slot) ->
            exists c, c ∈ pending w /\ handle_of c = Some slot).
  { intros slot Hs. apply H3 in Hs. apply list_elem_of_fmap in Hs as (c & Hc & Hin).
    exists c. split; [exact Hin | symmetry; exact Hc]. }
  split; [exact Hheld|]. split; [exact Hlive|]. split.
  - pose proof (held_slots _ H1) as Hslots.
    assert (Hnd : NoDup (omap handle_of (pending w))).
    { apply (NoDup_fmap_1 Some). rewrite <- Hslots. exact H2. }
    assert (Hdom : dom (handles w) = list_to_set (omap handle_of (pending w))).
    { apply set_eq. intros slot.
      rewrite elem_of_dom, elem_of_list_to_set, <- H3, Hslots.
      apply (list_elem_of_fmap_inj Some). }
    rewrite <- size_dom, Hdom, size_list_to_set by exact Hnd.
    rewrite <- (length_fmap Some), <- Hslots. apply length_fmap.
  - intros Hnone. apply map_empty. intros slot.
    destruct (handles w !! slot) as [f|] eqn:Hf; [|reflexivity].
    destruct (Hlive slot) as (c & Hc & _); [eexists; exact Hf|].
    rewrite Hnone in Hc. inversion Hc.
Qed.

Lemma handles_follow_open_dialogs_witness :
  size (handles (snd (entry showOpenDialog sample_native open_dialog_args empty_world)))
  = length (pending (snd (entry showOpenDialog sample_native open_dialog_args
                            empty_world))).
Proof.
  apply (handles_follow_open_dialogs sample_native).
  eapply reachable_step; [apply reachable_empty|].
  apply (step_call sample_native showOpenDialog open_dialog_args).
Defined.



(** X13.  The message box on the asynchronous path.  When the native layer
    ends the message box, the callback is called once with the very integer
    the native layer reports, the code of a dismissal included. *)
Theorem message_box_callback_value (native : NativeLayer) (args : Arguments)
    (f : nat) (text : ustring) (code : Z) (w : World) :
  passes showMessageBox args = true ->
  at_ args 6 = Function f text ->
  calls (trace (snd (complete (length (pending w)) (Chosen code)
                       (snd (ShowMessageBox native args w)))))
  = calls (trace w) ++ [(f, Number code)].
Proof.
  intros Hpass Hcb.
  change (ShowMessageBox native args w) with (entry showMessageBox native args w).
  rewrite (entry_async _ _ _ _ f text) by assumption. cbn [snd].
  rewrite complete_scheduled by reflexivity. cbn [snd].
  apply calls_completed.
Qed.

Lemma message_box_callback_value_witness :
  calls (trace (snd (complete 0 (Chosen (-1))
                       (snd (ShowMessageBox sample_native
                               (message_box_args ++ [Undefined; sample_cb])
                               empty_world)))))
  = calls (trace empty_world) ++ [(7%nat, Number (-1))].
Proof.
  apply (message_box_callback_value sample_native
           (message_box_args ++ [Undefined; sample_cb]) 7 (of_ascii "function(r){}")
           (-1) empty_world); reflexivity.
Defined.
